(** * Rose diagram generator: strike/dip parsing, validation and angular binning

    A shallow embedding of [app.py].  The script reads two text areas, parses
    them with [parse_input], validates the two lists and, when they pass,
    bins the strikes in [generate_rose_diagram].

    Python floats and numpy's float64 arrays are IEEE 754 binary64 numbers.
    They are modelled by [F64.t], with the rounding of every operation written
    out; the cross-checks in [F64_native] compare the model with Rocq's
    primitive (hardware) floats on the inputs used below. *)

From Stdlib Require Import String Ascii DecimalString ZArith List Bool Lia.
From Stdlib Require Import Permutation.
From Stdlib Require Import PrimFloat FloatOps SpecFloat.
Import ListNotations.
Local Open Scope Z_scope.

(** ** binary64 arithmetic *)

Module F64.

(** Every finite binary64 number is an integer multiple of [2^-1074], the
    smallest subnormal.  A finite value is kept as its sign and its
    magnitude counted in that unit; [1.0] has magnitude [2^1074]. *)
Inductive t : Type :=
| NaN
| Inf (neg : bool)
| Fin (neg : bool) (mag : Z).

Definition one_mag : Z := 2 ^ 1074.
Definition overflow_mag : Z := 2 ^ 2098.

Definition zero : t := Fin false 0.
Definition neg_zero : t := Fin true 0.

Definition sval (neg : bool) (mag : Z) : Z := if neg then - mag else mag.

Definition digits (q : Z) : Z := if q =? 0 then 0 else Z.log2 q + 1.

(** [round neg a d]: the binary64 number nearest to the quotient [a / d]
    ([0 <= a], [0 < d], in units of [2^-1074]): the quotient is cut to 53
    significant bits, the cut-off part [rest / (d * 2^s)] decides the
    rounding (to nearest, ties to the even neighbour), a result of
    [2^1024] or more overflows to infinity, and below [2^-1022] the unit
    itself is the spacing (gradual underflow). *)
Definition round (neg : bool) (a d : Z) : t :=
  let '(q, r) := Z.div_eucl a d in
  let s := Z.max 0 (digits q - 53) in
  let qh := Z.shiftr q s in
  let rest := d * (q - Z.shiftl qh s) + r in
  let k := match 2 * rest ?= Z.shiftl d s with
           | Lt => qh
           | Gt => qh + 1
           | Eq => if Z.even qh then qh else qh + 1
           end in
  let mag := Z.shiftl k s in
  if overflow_mag <=? mag then Inf neg else Fin neg mag.

(** Conversion of an integer (a Python [int] or a numpy [int64]). *)
Definition of_Z (z : Z) : t := round (z <? 0) (Z.shiftl (Z.abs z) 1074) 1.

Definition add (x y : t) : t :=
  match x, y with
  | NaN, _ | _, NaN => NaN
  | Inf a, Inf b => if Bool.eqb a b then Inf a else NaN
  | Inf a, Fin _ _ => Inf a
  | Fin _ _, Inf b => Inf b
  | Fin a j, Fin b k =>
      let z := sval a j + sval b k in
      if z =? 0 then Fin (a && b) 0 else round (z <? 0) (Z.abs z) 1
  end.

(** Number of trailing zero bits. *)
Fixpoint ctz_pos (p : positive) : Z :=
  match p with
  | xO p' => 1 + ctz_pos p'
  | _ => 0
  end.

Definition ctz (k : Z) : Z :=
  match k with
  | Zpos p => ctz_pos p
  | _ => 0
  end.

(** [x / y] is the rounded quotient [(j * 2^1074) / k] of the magnitudes;
    the powers of two common to both are cancelled before dividing. *)
Definition div (x y : t) : t :=
  match x, y with
  | NaN, _ | _, NaN => NaN
  | Inf _, Inf _ => NaN
  | Inf a, Fin b _ => Inf (xorb a b)
  | Fin a _, Inf b => Fin (xorb a b) 0
  | Fin a j, Fin b k =>
      if k =? 0 then (if j =? 0 then NaN else Inf (xorb a b))
      else
        let c := Z.min (ctz k) 1074 in
        round (xorb a b) (Z.shiftl j (1074 - c)) (Z.shiftr k c)
  end.

(** C's [fmod]: the exact remainder [j mod k] of the magnitudes, with the
    sign of the dividend; again computed after cancelling the common
    power of two. *)
Definition fmod (x y : t) : t :=
  match x, y with
  | NaN, _ | _, NaN => NaN
  | Inf _, _ => NaN
  | Fin a j, Inf _ => Fin a j
  | Fin a j, Fin _ k =>
      if k =? 0 then NaN
      else
        let c := Z.min (ctz j) (ctz k) in
        Fin a (Z.shiftl (Z.shiftr j c mod Z.shiftr k c) c)
  end.

Definition ltb (x y : t) : bool :=
  match x, y with
  | NaN, _ | _, NaN => false
  | Inf a, Inf b => a && negb b
  | Inf a, Fin _ _ => a
  | Fin _ _, Inf b => negb b
  | Fin a j, Fin b k => sval a j <? sval b k
  end.

Definition leb (x y : t) : bool :=
  match x, y with
  | NaN, _ | _, NaN => false
  | Inf a, Inf b => a || negb b
  | Inf a, Fin _ _ => a
  | Fin _ _, Inf b => negb b
  | Fin a j, Fin b k => sval a j <=? sval b k
  end.

Definition eqb (x y : t) : bool := leb x y && leb y x.

Definition is_nan (x : t) : bool :=
  match x with NaN => true | _ => false end.

Definition is_finite (x : t) : bool :=
  match x with Fin _ _ => true | _ => false end.

Definition signbit (x : t) : bool :=
  match x with Fin s _ | Inf s => s | NaN => false end.

End F64.

(** ** Cross-checks against the primitive floats *)

(** Conversions between the model and Rocq's primitive binary64 numbers,
    used only to replay single operations on the hardware. *)
Module F64_native.

Definition of_prim (f : float) : F64.t :=
  match Prim2SF f with
  | S754_zero s => F64.Fin s 0
  | S754_infinity s => F64.Inf s
  | S754_nan => F64.NaN
  | S754_finite s m e => F64.Fin s (Zpos m * 2 ^ (e + 1074))
  end.

(** [p = m * 2^e] with [m] odd. *)
Fixpoint odd_part (p : positive) : positive * Z :=
  match p with
  | xO p' => let '(m, e) := odd_part p' in (m, e + 1)
  | _ => (p, 0)
  end.

Definition to_prim (x : F64.t) : float :=
  match x with
  | F64.NaN => nan
  | F64.Inf s => if s then neg_infinity else infinity
  | F64.Fin s (Zpos p) =>
      let '(m, e) := odd_part p in SF2Prim (S754_finite s m (e - 1074))
  | F64.Fin s _ => if s then PrimFloat.neg_zero else PrimFloat.zero
  end.

(** Equality of two primitive floats as values: the same number with the
    same sign of zero, or both NaN. *)
Definition same (x y : float) : bool :=
  match Prim2SF x, Prim2SF y with
  | S754_nan, S754_nan => true
  | S754_zero s, S754_zero s' => Bool.eqb s s'
  | a, b => SFeqb a b
  end.

End F64_native.

(** ** Exceptions *)

Inductive exn : Type :=
| ValueError (token : string)   (* float() could not convert the token *)
| IndexError.                   (* boolean index did not match the array *)

Inductive result (A : Type) : Type :=
| Ok (a : A)
| Raise (e : exn).
Arguments Ok {A} a.
Arguments Raise {A} e.

Definition bind {A B : Type} (r : result A) (k : A -> result B) : result B :=
  match r with
  | Ok a => k a
  | Raise e => Raise e
  end.

Notation "x <- r ;; k" := (bind r (fun x => k))
  (at level 61, r at next level, right associativity).

(** ** The numpy operations used by the script *)

Module Np.
Import F64.

(** [x % y] on float64 (numpy's [npy_divmod]): [fmod], moved into the
    divisor's sign by one rounded addition, and a zero result takes the
    divisor's sign. *)
Definition is_zero (x : t) : bool :=
  match x with Fin _ 0 => true | _ => false end.

Definition remainder (a b : t) : t :=
  let m := fmod a b in
  if is_zero b then m
  else if is_zero m then Fin (signbit b) 0
  else if xorb (ltb b zero) (ltb m zero) then add m b
  else m.

(** [np.arange(start, stop, step)] on integers, for a positive step. *)
Definition arange (start stop step : Z) : list Z :=
  map (fun i => start + Z.of_nat i * step)
      (seq 0 (Z.to_nat ((stop - start + step - 1) / step))).

(** Summation of a contiguous float64 vector ([DOUBLE_pairwise_sum]):
    a plain loop from [-0.0] below 8 elements, eight interleaved
    accumulators up to a block of 128, halves (cut at a multiple of 8)
    above.  The recursion halves the vector, so a fuel of its length is
    never used up. *)
Definition loop_sum (acc : t) (a : list t) : t := fold_left add a acc.

Fixpoint accumulate8 (r : list t) (a : list t) (rounds : nat) : list t * list t :=
  match rounds with
  | O => (r, a)
  | S k =>
      let r' := map (fun p => add (fst p) (snd p)) (combine r (firstn 8 a)) in
      accumulate8 r' (skipn 8 a) k
  end.

Definition block_sum (a : list t) : t :=
  let n := length a in
  let '(r, rest) := accumulate8 (firstn 8 a) (skipn 8 a) ((n - n mod 8 - 8) / 8)%nat in
  let r_ i := nth i r zero in
  let res := add (add (add (r_ 0%nat) (r_ 1%nat)) (add (r_ 2%nat) (r_ 3%nat)))
                 (add (add (r_ 4%nat) (r_ 5%nat)) (add (r_ 6%nat) (r_ 7%nat))) in
  loop_sum res rest.

Fixpoint pairwise_sum (fuel : nat) (a : list t) : t :=
  let n := length a in
  if (n <? 8)%nat then loop_sum neg_zero a
  else if (n <=? 128)%nat then block_sum a
  else
    match fuel with
    | O => loop_sum neg_zero a
    | S fuel' =>
        let n2 := (n / 2 - (n / 2) mod 8)%nat in
        add (pairwise_sum fuel' (firstn n2 a)) (pairwise_sum fuel' (skipn n2 a))
    end.

(** [np.sum]: the reduction starts from the additive identity. *)
Definition sum (a : list t) : t := add zero (pairwise_sum (length a) a).

(** [np.mean]: the sum divided by the number of elements. *)
Definition mean (a : list t) : t := div (sum a) (of_Z (Z.of_nat (length a))).

(** [a.max()]: a reduction with [maximum], which keeps a NaN.  Between
    zeros of opposite sign numpy's vectorised loop may return either one;
    the script only tests [dip_max > 0] and divides by a positive
    [dip_max], so the sign of a zero maximum is never observed. *)
Definition maximum (x y : t) : t := if leb y x || is_nan x then x else y.

Definition max (a : list t) : t :=
  match a with
  | [] => NaN
  | x :: rest => fold_left maximum rest x
  end.

(** [a[idx]] for a boolean mask: the lengths must agree. *)
Fixpoint select (a : list t) (idx : list bool) : list t :=
  match a, idx with
  | x :: a', b :: idx' => if b then x :: select a' idx' else select a' idx'
  | _, _ => []
  end.

Definition mask_index (a : list t) (idx : list bool) : result (list t) :=
  if (length a =? length idx)%nat then Ok (select a idx) else Raise IndexError.

(** [np.sum(idx)] on a boolean mask. *)
Definition count_true (idx : list bool) : nat := length (filter id idx).

End Np.

(** ** [generate_rose_diagram] *)

(** What the figure is drawn from: the bars sit at [bin_centers], their
    length is [counts], their colour [dip_norm]; the colour bar spans
    [dip_means].  A count is an integer that the script keeps in a float64
    array, where it is exact below [2^53]. *)
Record rose : Type := mkRose {
  bin_centers : list F64.t;
  counts : list nat;
  dip_means : list F64.t;
  dip_norm : list F64.t
}.

Definition bin_deg : Z := 10.

Definition bins : list Z := Np.arange 0 (360 + bin_deg) bin_deg.

Definition centers_of (edges : list Z) : list F64.t :=
  let two := F64.of_Z 2 in
  map (fun p => F64.div (F64.of_Z (fst p + snd p)) two)
      (combine (removelast edges) (tl edges)).

(** [(az_full >= bins[i]) & (az_full < bins[i+1])] at one entry; the two
    edges are numpy integers, converted to float64 for the comparison. *)
Definition in_bin (lo hi : F64.t) (az : F64.t) : bool :=
  F64.leb lo az && F64.ltb az hi.

(** One turn of the loop over the bins: the count and the mean dip of the
    samples whose azimuth falls in [[lo, hi)]. *)
Definition bin_stat (az_full dips_full : list F64.t) (lo hi : Z)
  : result (nat * F64.t) :=
  let idx := map (in_bin (F64.of_Z lo) (F64.of_Z hi)) az_full in
  let count := Np.count_true idx in
  if (0 <? count)%nat then
    sel <- Np.mask_index dips_full idx ;;
    Ok (count, Np.mean sel)
  else Ok (count, F64.zero).

Fixpoint bin_loop (az_full dips_full : list F64.t) (edges : list (Z * Z))
  : result (list (nat * F64.t)) :=
  match edges with
  | [] => Ok []
  | (lo, hi) :: rest =>
      s <- bin_stat az_full dips_full lo hi ;;
      ss <- bin_loop az_full dips_full rest ;;
      Ok (s :: ss)
  end.

Definition normalize (means : list F64.t) : list F64.t :=
  let dip_max := Np.max means in
  if F64.ltb F64.zero dip_max then map (fun m => F64.div m dip_max) means
  else means.

(** The strikes wrapped to a full turn, folded to a half turn and doubled. *)
Definition az_full (strikes : list F64.t) : list F64.t :=
  let full_turn := F64.of_Z 360 in
  let half_turn := F64.of_Z 180 in
  let strikes := map (fun s => Np.remainder s full_turn) strikes in
  let az := map (fun s => Np.remainder s half_turn) strikes in
  az ++ map (fun a => F64.add a half_turn) az.

Definition edges : list (Z * Z) := combine (removelast bins) (tl bins).

Definition generate_rose_diagram (strikes dips : list F64.t) : result rose :=
  let az_full := az_full strikes in
  let dips_full := dips ++ dips in
  stats <- bin_loop az_full dips_full edges ;;
  let means := map snd stats in
  Ok (mkRose (centers_of bins) (map fst stats) means (normalize means)).

(** ** The Python string operations used by [parse_input] *)

(** A text field is modelled as ASCII text, one [ascii] per character.  On
    other text Python's [str.strip] and [float] also take the Unicode blanks
    (U+00A0, U+2000 and the like) for blanks and the Unicode decimal digits
    for digits; such text is outside the model, and what is proved of
    [parse_input] below is proved of ASCII text. *)

Module Py.

(** The ASCII characters that [str.strip] and [float] treat as blank. *)
Definition is_space (c : ascii) : bool :=
  let n := nat_of_ascii c in
  ((n =? 32) || ((9 <=? n) && (n <=? 13)) || ((28 <=? n) && (n <=? 31)))%nat.

Definition is_empty (s : string) : bool :=
  match s with EmptyString => true | _ => false end.

Fixpoint lstrip (s : string) : string :=
  match s with
  | String c s' => if is_space c then lstrip s' else s
  | EmptyString => EmptyString
  end.

Fixpoint rstrip (s : string) : string :=
  match s with
  | String c s' =>
      let r := rstrip s' in
      if is_space c && is_empty r then EmptyString else String c r
  | EmptyString => EmptyString
  end.

Definition strip (s : string) : string := rstrip (lstrip s).

(** [s.replace(old, new)] for a one-character [old]. *)
Fixpoint replace (old : ascii) (new : string) (s : string) : string :=
  match s with
  | String c s' =>
      if Ascii.eqb c old then (new ++ replace old new s')%string
      else String c (replace old new s')
  | EmptyString => EmptyString
  end.

(** [s.split(sep)] for a one-character separator. *)
Fixpoint split (sep : ascii) (s : string) : list string :=
  match s with
  | String c s' =>
      if Ascii.eqb c sep then EmptyString :: split sep s'
      else match split sep s' with
           | piece :: rest => String c piece :: rest
           | [] => [String c EmptyString]
           end
  | EmptyString => [EmptyString]
  end.

Definition digit_val (c : ascii) : option Z :=
  let n := nat_of_ascii c in
  if ((48 <=? n) && (n <=? 57))%nat then Some (Z.of_nat (n - 48)) else None.

(** [digitpart ::= digit (["_"] digit)*], read after its first digit:
    the value so far, the number of digits so far, and what follows. *)
Fixpoint more_digits (s : string) (value count : Z) : Z * Z * string :=
  match s with
  | String c s' =>
      match digit_val c with
      | Some d => more_digits s' (10 * value + d) (count + 1)
      | None =>
          if Ascii.eqb c "_" then
            match s' with
            | String c2 s'' =>
                match digit_val c2 with
                | Some d => more_digits s'' (10 * value + d) (count + 1)
                | None => (value, count, s)
                end
            | EmptyString => (value, count, s)
            end
          else (value, count, s)
      end
  | EmptyString => (value, count, s)
  end.

(** An optional [digitpart], continuing the digits read before it. *)
Definition digitpart (s : string) (value count : Z) : Z * Z * string :=
  match s with
  | String c s' =>
      match digit_val c with
      | Some d => more_digits s' (10 * value + d) (count + 1)
      | None => (value, count, s)
      end
  | EmptyString => (value, count, s)
  end.

Definition sign (s : string) : bool * string :=
  match s with
  | String "-" s' => (true, s')
  | String "+" s' => (false, s')
  | _ => (false, s)
  end.

Definition lower (c : ascii) : ascii :=
  let n := nat_of_ascii c in
  if ((65 <=? n) && (n <=? 90))%nat then ascii_of_nat (n + 32) else c.

Fixpoint lowercase (s : string) : string :=
  match s with
  | String c s' => String (lower c) (lowercase s')
  | EmptyString => EmptyString
  end.

(** [exponent ::= ("e" | "E") [sign] digitpart], or nothing. *)
Definition exponent (s : string) : option (Z * string) :=
  match s with
  | String c s' =>
      if Ascii.eqb (lower c) "e" then
        let '(neg, s1) := sign s' in
        let '(value, count, rest) := digitpart s1 0 0 in
        if count =? 0 then None
        else Some (if neg then - value else value, rest)
      else Some (0, s)
  | EmptyString => Some (0, s)
  end.

(** [float(s)] on ASCII text: blanks around the literal are skipped; the
    literal is a signed decimal number with an optional fraction and
    exponent, or [inf], [infinity] or [nan] in any case.  The decimal
    value is rounded once to binary64. *)
Definition float (s : string) : option F64.t :=
  let '(neg, body) := sign (strip s) in
  let word := lowercase body in
  if (String.eqb word "inf" || String.eqb word "infinity")%bool then Some (F64.Inf neg)
  else if String.eqb word "nan" then Some F64.NaN
  else
    let '(m1, n1, s1) := digitpart body 0 0 in
    let '(m2, n2, s2) :=
      match s1 with
      | String "." s1' => digitpart s1' m1 n1
      | _ => (m1, n1, s1)
      end in
    if n2 =? 0 then None
    else
      match exponent s2 with
      | Some (e, EmptyString) =>
          let e10 := e - (n2 - n1) in
          if 0 <=? e10 then Some (F64.round neg (Z.shiftl (m2 * 10 ^ e10) 1074) 1)
          else Some (F64.round neg (Z.shiftl m2 1074) (10 ^ (- e10)))
      | _ => None
      end.

End Py.

(** ** [parse_input] *)

Fixpoint traverse {A B : Type} (f : A -> result B) (l : list A) : result (list B) :=
  match l with
  | [] => Ok []
  | x :: rest =>
      y <- f x ;;
      ys <- traverse f rest ;;
      Ok (y :: ys)
  end.

(** [float(x)] raising [ValueError] on a token it cannot convert. *)
Definition float_or_raise (x : string) : result F64.t :=
  match Py.float x with
  | Some v => Ok v
  | None => Raise (ValueError x)
  end.

Definition newline : ascii := ascii_of_nat 10.

Definition parse_input (input_text : string) : result (list F64.t) :=
  if Py.is_empty (Py.strip input_text) then Ok []
  else
    let cleaned := Py.replace " " "" (Py.replace newline "," input_text) in
    traverse (fun x => float_or_raise (Py.strip x))
             (filter (fun x => negb (Py.is_empty (Py.strip x))) (Py.split "," cleaned)).

(** ** The handler of the generate button *)

Definition min_samples : nat := 25.

Definition str (n : nat) : string := NilEmpty.string_of_uint (Nat.to_uint n).

Definition strike_empty : string := "❌ Data strike tidak boleh kosong".
Definition dip_empty : string := "❌ Data dip tidak boleh kosong".

Definition strike_too_few (n : nat) : string :=
  "❌ Data strike minimal 25, saat ini hanya " ++ str n ++ " data".

Definition dip_too_few (n : nat) : string :=
  "❌ Data dip minimal 25, saat ini hanya " ++ str n ++ " data".

Definition length_mismatch (n m : nat) : string :=
  "❌ Jumlah data strike (" ++ str n ++ ") dan dip (" ++ str m ++ ") harus sama".

(** The validation block: the list [errors] after the three [if]s. *)
Definition validate (strikes dips : list F64.t) : list string :=
  let errors := [] in
  let errors :=
    if (length strikes =? 0)%nat then errors ++ [strike_empty]
    else if (length strikes <? min_samples)%nat
         then errors ++ [strike_too_few (length strikes)]
         else errors in
  let errors :=
    if (length dips =? 0)%nat then errors ++ [dip_empty]
    else if (length dips <? min_samples)%nat
         then errors ++ [dip_too_few (length dips)]
         else errors in
  if negb (length strikes =? length dips)%nat
  then errors ++ [length_mismatch (length strikes) (length dips)]
  else errors.

(** What one press of the button ends in: an exception nobody catches, the
    list of error messages shown with [st.error], or the figure. *)
Inductive outcome : Type :=
| Uncaught (e : exn)
| Rejected (errors : list string)
| Rendered (fig : rose).

Definition on_generate (strike_input dip_input : string) : outcome :=
  match parse_input strike_input with
  | Raise e => Uncaught e
  | Ok strikes =>
      match parse_input dip_input with
      | Raise e => Uncaught e
      | Ok dips =>
          match validate strikes dips with
          | [] =>
              match generate_rose_diagram strikes dips with
              | Ok fig => Rendered fig
              | Raise e => Uncaught e
              end
          | errors => Rejected errors
          end
      end
  end.

(** ** Reading the result *)

(** Bin [i] of a figure: centre, count, mean dip, normalised dip. *)
Definition bin_row (fig : rose) (i : nat) : F64.t * nat * F64.t * F64.t :=
  (nth i (bin_centers fig) F64.NaN, nth i (counts fig) O,
   nth i (dip_means fig) F64.NaN, nth i (dip_norm fig) F64.NaN).

Definition total_count (fig : rose) : nat := fold_right Nat.add O (counts fig).

Definition one : F64.t := F64.of_Z 1.

(** A value that compares [>= 0]: a zero of either sign, a positive finite
    number or plus infinity. *)
Definition nonneg (x : F64.t) : Prop :=
  match x with
  | F64.NaN => False
  | F64.Inf s => s = false
  | F64.Fin s k => 0 <= k /\ (s = true -> k = 0)
  end.

(** The pieces of a text field as the specification words them: cut at
    commas and newlines, blanks around each piece removed, empty pieces
    dropped. *)
Fixpoint split_any (s : string) : list string :=
  match s with
  | String c s' =>
      if (Ascii.eqb c "," || Ascii.eqb c newline)%bool then EmptyString :: split_any s'
      else match split_any s' with
           | piece :: rest => String c piece :: rest
           | [] => [String c EmptyString]
           end
  | EmptyString => [EmptyString]
  end.

Definition spec_tokens (text : string) : list string :=
  filter (fun x => negb (Py.is_empty x)) (map Py.strip (split_any text)).

(** ** The loop of [generate_rose_diagram] without its exception path *)

Definition bin_mask (az : list F64.t) (e : Z * Z) : list bool :=
  map (in_bin (F64.of_Z (fst e)) (F64.of_Z (snd e))) az.

Definition bin_count (az : list F64.t) (e : Z * Z) : nat :=
  Np.count_true (bin_mask az e).

Definition bin_mean (az dips : list F64.t) (e : Z * Z) : F64.t :=
  if (0 <? bin_count az e)%nat then Np.mean (Np.select dips (bin_mask az e))
  else F64.zero.

(** An azimuth inside the histogram's range [[0, 360)]. *)
Definition in_range (az : F64.t) : bool :=
  F64.leb F64.zero az && F64.ltb az (F64.of_Z 360).

(** The float64 value of bin edge number [i]. *)
Definition edge (i : nat) : F64.t := F64.of_Z (nth i bins 0).

(** ** Inputs of the scenarios *)

Definition lines (row : string) (n : nat) : string :=
  String.concat (String newline EmptyString) (repeat row n).

(** A list over the 36 bins holding [v] at the bins listed in [hit] and [d]
    elsewhere. *)
Definition at_bins {A : Type} (hit : list nat) (v d : A) : list A :=
  map (fun i => if existsb (Nat.eqb i) hit then v else d) (seq 0 36).

(** Scenario A: 25 strikes of 10 degrees, 25 dips of 50 degrees. *)
Definition scenario_A_strikes : list F64.t := repeat (F64.of_Z 10) 25.
Definition scenario_A_dips : list F64.t := repeat (F64.of_Z 50) 25.

(** ** Predicates used to state the properties *)

(** Strictly above zero: a positive finite number or plus infinity. *)
Definition is_positive (y : F64.t) : Prop :=
  y = F64.Inf false \/ exists mag, y = F64.Fin false mag /\ 0 < mag.

(** A zero of either sign. *)
Definition zeroish (x : F64.t) : Prop := exists s, x = F64.Fin s 0.

(** A text made of blanks only. *)
Fixpoint blank (s : string) : bool :=
  match s with
  | String c s' => Py.is_space c && blank s'
  | EmptyString => true
  end.

(** ** Predicates used by the further properties *)

(** A text without any token: blanks and commas only. *)
Fixpoint no_token (s : string) : bool :=
  match s with
  | String c s' => (Py.is_space c || Ascii.eqb c ",") && no_token s'
  | EmptyString => true
  end.

(** A float64 value as the operations produce it: a finite magnitude is
    never negative. *)
Definition well_formed (x : F64.t) : Prop :=
  match x with
  | F64.Fin _ k => 0 <= k
  | _ => True
  end.

(** The folded azimuths, [az] in the script: each strike wrapped to a full
    turn, then to a half turn. *)
Definition az (strikes : list F64.t) : list F64.t :=
  map (fun s => Np.remainder (Np.remainder s (F64.of_Z 360)) (F64.of_Z 180)) strikes.

(** The number of samples whose doubled azimuth [az + 180] is [360.0], the
    excluded upper end of the last bin. *)
Definition on_full_turn (strikes : list F64.t) : nat :=
  length (filter (fun a => F64.eqb (F64.add a (F64.of_Z 180)) (F64.of_Z 360)) (az strikes)).

(** The number of strikes that are finite numbers. *)
Definition finite_count (strikes : list F64.t) : nat :=
  length (filter F64.is_finite strikes).

(** * Properties *)

Module F64_facts.
Import F64.

Lemma one_mag_pos : 0 < one_mag.
Proof. unfold one_mag. apply Z.pow_pos_nonneg; lia. Qed.

Lemma overflow_mag_eq : overflow_mag = one_mag * 2 ^ 1024.
Proof. unfold overflow_mag, one_mag. rewrite <- Z.pow_add_r by lia. reflexivity. Qed.

Lemma digits_bound q t : 0 <= q <= 2 ^ t -> 0 <= t -> digits q <= t + 1.
Proof.
  intros Hq Ht. unfold digits.
  destruct (Z.eqb_spec q 0) as [|Hne]; [lia|].
  assert (Z.log2 q <= Z.log2 (2 ^ t)) by (apply Z.log2_le_mono; lia).
  rewrite Z.log2_pow2 in H by lia. lia.
Qed.

Lemma digits_lower q : 0 < q -> 2 ^ (digits q - 1) <= q.
Proof.
  intros Hq. unfold digits.
  destruct (Z.eqb_spec q 0) as [|Hne]; [lia|].
  replace (Z.log2 q + 1 - 1) with (Z.log2 q) by lia.
  apply Z.log2_spec; lia.
Qed.

(** What [round] computes, with the shifts read as powers of two. *)
Lemma round_spec neg a d :
  0 <= a -> 0 < d ->
  exists s k,
    let q := a / d in
    let r := a mod d in
    let qh := q / 2 ^ s in
    s = Z.max 0 (digits q - 53) /\
    qh <= k <= qh + 1 /\
    (d * (q - qh * 2 ^ s) + r = 0 -> k = qh) /\
    round neg a d =
      if overflow_mag <=? k * 2 ^ s then Inf neg else Fin neg (k * 2 ^ s).
Proof.
  intros Ha Hd. unfold round.
  assert (E : Z.div_eucl a d = (a / d, a mod d)).
  { unfold Z.div, Z.modulo. destruct (Z.div_eucl a d); reflexivity. }
  rewrite E.
  pose proof (Z.mod_pos_bound a d Hd) as Hr.
  pose proof (Z.div_pos a d Ha Hd) as Hq.
  set (q := a / d) in *. set (r := a mod d) in *.
  set (s := Z.max 0 (digits q - 53)).
  assert (Hs : 0 <= s) by lia.
  rewrite Z.shiftr_div_pow2 by lia.
  rewrite !Z.shiftl_mul_pow2 by lia.
  set (qh := q / 2 ^ s).
  assert (Hp : 0 < 2 ^ s) by (apply Z.pow_pos_nonneg; lia).
  exists s.
  destruct (Z.compare_spec (2 * (d * (q - qh * 2 ^ s) + r)) (d * 2 ^ s)) as [Hc|Hc|Hc].
  - destruct (Z.even qh).
    + exists qh. cbv zeta. repeat split; try lia.
    + exists (qh + 1). cbv zeta. repeat split; try lia; fold qh; nia.
  - exists qh. cbv zeta. repeat split; try lia.
  - exists (qh + 1). cbv zeta. repeat split; try lia; fold qh; nia.
Qed.

Lemma overflow_mag_pos : 0 < overflow_mag.
Proof. unfold overflow_mag. apply Z.pow_pos_nonneg; lia. Qed.

Lemma round_zero neg d : 0 < d -> round neg 0 d = Fin neg 0.
Proof.
  intros Hd.
  destruct (round_spec neg 0 d ltac:(lia) Hd) as (s & k & Hs & Hk & Hex & ->).
  cbv zeta in *.
  rewrite Z.div_0_l, Z.mod_0_l in * by lia.
  change (digits 0) with 0 in Hs. replace s with 0 in * by lia.
  rewrite Z.pow_0_r, Z.div_1_r in *.
  assert (k = 0) by (apply Hex; lia). subst k.
  pose proof overflow_mag_pos.
  destruct (Z.leb_spec overflow_mag (0 * 1)); [lia|reflexivity].
Qed.

Lemma round_nonneg neg a d :
  0 <= a -> 0 < d ->
  round neg a d = Inf neg \/ exists mag, round neg a d = Fin neg mag /\ 0 <= mag.
Proof.
  intros Ha Hd.
  destruct (round_spec neg a d Ha Hd) as (s & k & Hs & Hk & _ & ->).
  cbv zeta in *.
  destruct (Z.leb_spec overflow_mag (k * 2 ^ s)); [left; reflexivity|].
  right. eexists; split; [reflexivity|].
  assert (0 <= a / d) by (apply Z.div_pos; lia).
  assert (0 < 2 ^ s) by (apply Z.pow_pos_nonneg; lia).
  assert (0 <= a / d / 2 ^ s) by (apply Z.div_pos; lia).
  nia.
Qed.

Lemma round_pos neg a d :
  0 < d <= a ->
  round neg a d = Inf neg \/ exists mag, round neg a d = Fin neg mag /\ 0 < mag.
Proof.
  intros Hd.
  destruct (round_spec neg a d ltac:(lia) ltac:(lia)) as (s & k & Hs & Hk & _ & ->).
  cbv zeta in *.
  destruct (Z.leb_spec overflow_mag (k * 2 ^ s)); [left; reflexivity|].
  right. eexists; split; [reflexivity|].
  assert (Hq : 0 < a / d) by (apply Z.div_str_pos; lia).
  assert (Hp : 0 < 2 ^ s) by (apply Z.pow_pos_nonneg; lia).
  assert (2 ^ s <= a / d).
  { pose proof (digits_lower (a / d) Hq).
    destruct (Z.max_spec 0 (digits (a / d) - 53)) as [[_ E]|[_ E]]; rewrite E in Hs; subst s.
    - eapply Z.le_trans; [|exact H0]. apply Z.pow_le_mono_r; [lia|].
      assert (1 <= digits (a / d)); [|lia].
      unfold digits. destruct (Z.eqb_spec (a / d) 0); [lia|].
      pose proof (Z.log2_nonneg (a / d)). lia.
    - rewrite Z.pow_0_r. lia. }
  assert (1 <= a / d / 2 ^ s) by (apply Z.div_le_lower_bound; lia).
  nia.
Qed.

Lemma round_le_pow2 neg a d t :
  0 < d -> 0 <= a <= 2 ^ t * d -> 0 <= t < 2098 ->
  exists mag, round neg a d = Fin neg mag /\ 0 <= mag <= 2 ^ t.
Proof.
  intros Hd Ha Ht.
  destruct (round_spec neg a d ltac:(lia) Hd) as (s & k & Hs & Hk & Hex & ->).
  cbv zeta in *.
  pose proof (Z.mod_pos_bound a d Hd) as Hr.
  pose proof (Z.div_mod a d ltac:(lia)) as Hdm.
  set (q := a / d) in *. set (r := a mod d) in *.
  assert (HT : 0 < 2 ^ t) by (apply Z.pow_pos_nonneg; lia).
  assert (Hq : 0 <= q <= 2 ^ t) by nia.
  assert (Hst : 0 <= s <= t).
  { pose proof (digits_bound q t Hq ltac:(lia)). lia. }
  assert (Hp : 0 < 2 ^ s) by (apply Z.pow_pos_nonneg; lia).
  assert (HM : 0 < 2 ^ (t - s)) by (apply Z.pow_pos_nonneg; lia).
  assert (Hsplit : 2 ^ t = 2 ^ (t - s) * 2 ^ s).
  { rewrite <- Z.pow_add_r by lia. f_equal. lia. }
  set (qh := q / 2 ^ s) in *.
  assert (Hqh : 0 <= qh <= 2 ^ (t - s)).
  { split; [apply Z.div_pos; lia|].
    apply Z.div_le_upper_bound; [lia|]. rewrite Z.mul_comm. lia. }
  assert (Hlow : qh * 2 ^ s <= q).
  { unfold qh. rewrite Z.mul_comm. apply Z.mul_div_le. lia. }
  assert (Hmag : 0 <= k * 2 ^ s <= 2 ^ t).
  { destruct (Z.eq_dec qh (2 ^ (t - s))) as [E|NE].
    - assert (q = 2 ^ t) by nia.
      assert (r = 0) by nia.
      assert (k = qh) by (apply Hex; nia).
      nia.
    - assert (k <= 2 ^ (t - s)) by lia. nia. }
  assert (2 ^ t < overflow_mag).
  { unfold overflow_mag. apply Z.pow_lt_mono_r; lia. }
  destruct (Z.leb_spec overflow_mag (k * 2 ^ s)); [lia|].
  eexists; split; [reflexivity|lia].
Qed.

Lemma round_pow2_exact neg d t :
  0 < d -> 0 <= t < 2098 -> round neg (2 ^ t * d) d = Fin neg (2 ^ t).
Proof.
  intros Hd Ht.
  assert (HT : 0 < 2 ^ t) by (apply Z.pow_pos_nonneg; lia).
  destruct (round_le_pow2 neg (2 ^ t * d) d t Hd ltac:(nia) Ht) as (mag & E & Hmag).
  rewrite E. f_equal.
  destruct (round_spec neg (2 ^ t * d) d ltac:(nia) Hd) as (s & k & Hs & Hk & _ & E2).
  cbv zeta in *. rewrite E in E2.
  rewrite Z.div_mul in * by lia.
  assert (Hst : 0 <= s <= t).
  { pose proof (digits_bound (2 ^ t) t ltac:(lia) ltac:(lia)). lia. }
  assert (Hsplit : 2 ^ t = 2 ^ (t - s) * 2 ^ s).
  { rewrite <- Z.pow_add_r by lia. f_equal. lia. }
  assert (Hp : 0 < 2 ^ s) by (apply Z.pow_pos_nonneg; lia).
  rewrite Hsplit in Hk at 1 2. rewrite Z.div_mul in Hk by lia.
  destruct (Z.leb_spec overflow_mag (k * 2 ^ s)); [discriminate|].
  injection E2 as ->. nia.
Qed.

Lemma ctz_pos_spec p : 0 <= ctz_pos p /\ (2 ^ ctz_pos p | Zpos p).
Proof.
  induction p as [p IH|p IH|]; cbn [ctz_pos].
  - split; [lia|]. rewrite Z.pow_0_r. apply Z.divide_1_l.
  - destruct IH as [H0 [m Hm]]. split; [lia|].
    exists m. rewrite Z.add_comm, Z.pow_add_r, Z.pow_1_r by lia.
    rewrite Pos2Z.inj_xO, Hm. ring.
  - split; [lia|]. rewrite Z.pow_0_r. apply Z.divide_1_l.
Qed.

Lemma shiftr_ctz k c :
  0 < k -> 0 <= c <= ctz k -> Z.shiftr k c * 2 ^ c = k /\ 0 < Z.shiftr k c.
Proof.
  intros Hk Hc. destruct k as [|p|p]; try lia. cbn [ctz] in Hc.
  destruct (ctz_pos_spec p) as [H0 [m Hm]].
  rewrite Z.shiftr_div_pow2 by lia.
  assert (Hp : 0 < 2 ^ c) by (apply Z.pow_pos_nonneg; lia).
  assert (Hdiv : (2 ^ c | Zpos p)).
  { exists (m * 2 ^ (ctz_pos p - c)). rewrite Hm at 1.
    rewrite <- Z.mul_assoc, <- Z.pow_add_r by lia. do 2 f_equal. lia. }
  destruct Hdiv as [n Hn]. rewrite Hn, Z.div_mul by lia. split; [reflexivity|nia].
Qed.
End F64_facts.

Module F64_ops.
Import F64 F64_facts.

Lemma of_Z_positive n : 0 < n -> is_positive (of_Z n).
Proof.
  intros Hn. unfold of_Z, is_positive.
  destruct (Z.ltb_spec n 0); [lia|].
  rewrite Z.shiftl_mul_pow2 by lia. fold one_mag.
  pose proof one_mag_pos.
  apply round_pos. rewrite Z.abs_eq by lia. nia.
Qed.

Lemma one_eq : one = Fin false one_mag.
Proof.
  unfold one, of_Z. change (1 <? 0) with false.
  rewrite Z.shiftl_mul_pow2 by lia. change (Z.abs 1) with 1.
  rewrite Z.mul_comm. apply round_pow2_exact; lia.
Qed.

Lemma sval_nonneg s k : nonneg (Fin s k) -> sval s k = k.
Proof. intros [H0 Hs]. destruct s; cbn; [rewrite Hs by reflexivity|]; lia. Qed.

Lemma add_nonneg x y : nonneg x -> nonneg y -> nonneg (add x y).
Proof.
  destruct x as [|a|a j], y as [|b|b k]; cbn [nonneg add]; try tauto.
  - intros -> ->. reflexivity.
  - intros Hx Hy.
    rewrite (sval_nonneg _ _ Hx), (sval_nonneg _ _ Hy).
    destruct Hx as [Hj _], Hy as [Hk _].
    destruct (Z.eqb_spec (j + k) 0).
    + cbn. split; [lia|reflexivity].
    + destruct (Z.ltb_spec (j + k) 0); [lia|].
      destruct (round_nonneg false (Z.abs (j + k)) 1 ltac:(lia) ltac:(lia))
        as [->|(mag & -> & Hm)]; cbn; [reflexivity|].
      split; [lia|discriminate].
Qed.

Lemma add_zeroish x y : zeroish x -> zeroish y -> zeroish (add x y).
Proof.
  intros [a ->] [b ->]. cbn [add].
  replace (sval a 0 + sval b 0) with 0 by (destruct a, b; reflexivity).
  eexists; reflexivity.
Qed.

Lemma zeroish_eqb x : eqb x zero = true <-> zeroish x.
Proof.
  unfold eqb, zero, zeroish. split.
  - destruct x as [|a|a j]; cbn; try discriminate.
    + destruct a; discriminate.
    + intros H. apply andb_prop in H as [H1 H2].
      apply Z.leb_le in H1, H2. exists a. f_equal. destruct a; cbn in *; lia.
  - intros [s ->]. destruct s; reflexivity.
Qed.

Lemma div_zeroish x y : zeroish x -> is_positive y -> zeroish (div x y).
Proof.
  intros [s ->] [->|(mag & -> & Hm)]; cbn [div].
  - eexists; reflexivity.
  - destruct (Z.eqb_spec mag 0); [lia|].
    rewrite Z.shiftl_0_l.
    destruct (shiftr_ctz mag (Z.min (ctz mag) 1074) Hm) as [_ Hd].
    { destruct mag; cbn [ctz]; try lia.
      pose proof (ctz_pos_spec p). lia. }
    rewrite round_zero by exact Hd. eexists; reflexivity.
Qed.

Lemma ctz_nonneg k : 0 <= ctz k.
Proof. destruct k; cbn; try lia. apply ctz_pos_spec. Qed.

(** The operands handed to [round] by a finite division. *)
Lemma div_operands j k :
  0 <= j -> 0 < k ->
  let c := Z.min (ctz k) 1074 in
  0 < Z.shiftr k c /\ 0 <= Z.shiftl j (1074 - c) /\
  Z.shiftl j (1074 - c) * k = j * one_mag * Z.shiftr k c.
Proof.
  intros Hj Hk c. pose proof (ctz_nonneg k).
  destruct (shiftr_ctz k c Hk ltac:(lia)) as [E Hd].
  rewrite Z.shiftl_mul_pow2 by lia.
  assert (0 < 2 ^ (1074 - c)) by (apply Z.pow_pos_nonneg; lia).
  assert (0 < 2 ^ c) by (apply Z.pow_pos_nonneg; lia).
  assert (Hs : one_mag = 2 ^ (1074 - c) * 2 ^ c).
  { unfold one_mag. rewrite <- Z.pow_add_r by lia. f_equal. lia. }
  repeat split; [lia|nia|].
  rewrite Hs. rewrite <- E at 1. ring.
Qed.

Lemma div_finite_nonneg x y :
  nonneg x -> is_positive y -> is_finite (div x y) = true -> nonneg (div x y).
Proof.
  intros Hx [->|(K & -> & HK)]; destruct x as [|a|a j]; cbn [nonneg div is_positive] in *;
    try tauto; try discriminate.
  - intros _. rewrite xorb_false_r. split; [lia|reflexivity].
  - destruct (Z.eqb_spec K 0); [lia|]. intros _.
    destruct Hx as [Hj Ha]. rewrite xorb_false_r.
    destruct (div_operands j K Hj HK) as (Hd & Hn & _). cbv zeta in *.
    destruct a.
    + rewrite Ha in * by reflexivity. rewrite Z.shiftl_0_l.
      rewrite round_zero by lia. cbn. split; [lia|reflexivity].
    + destruct (round_nonneg false _ _ Hn Hd) as [->|(mag & -> & Hm)]; cbn;
        [reflexivity|split; [lia|discriminate]].
Qed.

Lemma div_le_one a j K :
  nonneg (Fin a j) -> 0 < K -> j <= K ->
  exists mag, div (Fin a j) (Fin false K) = Fin a mag /\
              0 <= mag <= one_mag /\ (a = true -> mag = 0).
Proof.
  intros [Hj Ha] HK Hle. cbn [div].
  destruct (Z.eqb_spec K 0); [lia|]. rewrite xorb_false_r.
  destruct (div_operands j K Hj HK) as (Hd & Hn & E). cbv zeta in *.
  destruct a.
  - rewrite Ha in * by reflexivity. rewrite Z.shiftl_0_l, round_zero by lia.
    pose proof one_mag_pos. exists 0. repeat split; lia.
  - set (c := Z.min (ctz K) 1074) in *.
    assert (Hb : 0 <= Z.shiftl j (1074 - c) <= 2 ^ 1074 * Z.shiftr K c).
    { split; [lia|]. fold one_mag. pose proof one_mag_pos.
      destruct (shiftr_ctz K c HK) as [EK _]; [pose proof (ctz_nonneg K); lia|].
      nia. }
    destruct (round_le_pow2 false _ _ 1074 Hd Hb ltac:(lia)) as (mag & -> & Hm).
    exists mag. fold one_mag in Hm. repeat split; try lia; discriminate.
Qed.

Lemma div_self K : 0 < K -> div (Fin false K) (Fin false K) = Fin false one_mag.
Proof.
  intros HK. cbn [div]. destruct (Z.eqb_spec K 0); [lia|]. cbn [xorb].
  destruct (div_operands K K ltac:(lia) HK) as (Hd & Hn & E). cbv zeta in *.
  set (c := Z.min (ctz K) 1074) in *.
  assert (Z.shiftl K (1074 - c) = 2 ^ 1074 * Z.shiftr K c).
  { fold one_mag. nia. }
  rewrite H. apply round_pow2_exact; lia.
Qed.

(** [fmod] is the exact remainder of the magnitudes. *)
Lemma fmod_exact a b j k :
  0 <= j -> 0 < k -> fmod (Fin a j) (Fin b k) = Fin a (j mod k).
Proof.
  intros Hj Hk. cbn [fmod]. destruct (Z.eqb_spec k 0); [lia|]. f_equal.
  set (c := Z.min (ctz j) (ctz k)).
  pose proof (ctz_nonneg j). pose proof (ctz_nonneg k).
  assert (Hp : 0 < 2 ^ c) by (apply Z.pow_pos_nonneg; lia).
  destruct (shiftr_ctz k c Hk ltac:(lia)) as [Ek Hk'].
  assert (Ej : Z.shiftr j c * 2 ^ c = j).
  { destruct (Z.eq_dec j 0) as [->|Hne].
    - rewrite Z.shiftr_0_l. reflexivity.
    - apply shiftr_ctz; lia. }
  rewrite Z.shiftl_mul_pow2 by lia.
  rewrite <- Ej at 2. rewrite <- Ek at 2.
  rewrite Z.mul_mod_distr_r by lia. reflexivity.
Qed.

End F64_ops.

Module Np_facts.
Import F64 F64_facts F64_ops.

Lemma Forall_firstn {A} (P : A -> Prop) n l : Forall P l -> Forall P (firstn n l).
Proof.
  intros H. rewrite <- (firstn_skipn n l) in H. apply Forall_app in H. tauto.
Qed.

Lemma Forall_skipn {A} (P : A -> Prop) n l : Forall P l -> Forall P (skipn n l).
Proof.
  intros H. rewrite <- (firstn_skipn n l) in H. apply Forall_app in H. tauto.
Qed.

Lemma Forall_nth_default {A} (P : A -> Prop) l i d :
  Forall P l -> P d -> P (nth i l d).
Proof.
  intros H Hd. revert i. induction H; destruct i; cbn; auto.
Qed.

Section Closed.
Variable P : F64.t -> Prop.
Hypothesis P_zero : P zero.
Hypothesis P_neg_zero : P neg_zero.
Hypothesis P_add : forall x y, P x -> P y -> P (add x y).

Lemma loop_sum_closed a : forall acc, P acc -> Forall P a -> P (Np.loop_sum acc a).
Proof.
  unfold Np.loop_sum. induction a as [|x a IH]; cbn; intros acc Hacc Ha; [exact Hacc|].
  inversion Ha; subst. apply IH; auto.
Qed.

Lemma add_pairs_closed r : forall a,
  Forall P r -> Forall P a ->
  Forall P (map (fun p => add (fst p) (snd p)) (combine r a)).
Proof.
  induction r as [|x r IH]; intros [|y a] Hr Ha; cbn; try constructor;
    inversion Hr; inversion Ha; subst; auto.
Qed.

Lemma accumulate8_closed rounds : forall r a,
  Forall P r -> Forall P a ->
  Forall P (fst (Np.accumulate8 r a rounds)) /\
  Forall P (snd (Np.accumulate8 r a rounds)).
Proof.
  induction rounds as [|n IH]; intros r a Hr Ha; cbn [Np.accumulate8 fst snd]; [tauto|].
  apply IH.
  - apply add_pairs_closed; [assumption|]. now apply Forall_firstn.
  - now apply Forall_skipn.
Qed.

Lemma block_sum_closed a : Forall P a -> P (Np.block_sum a).
Proof.
  intros Ha. unfold Np.block_sum.
  pose proof (accumulate8_closed
                ((length a - length a mod 8 - 8) / 8)%nat
                (firstn 8 a) (skipn 8 a)
                (Forall_firstn P 8 a Ha) (Forall_skipn P 8 a Ha)) as [Hr Hrest].
  destruct (Np.accumulate8 _ _ _) as [r rest]. cbn [fst snd] in *.
  apply loop_sum_closed; [|assumption].
  repeat apply P_add; now apply Forall_nth_default.
Qed.

Lemma pairwise_sum_closed fuel : forall a, Forall P a -> P (Np.pairwise_sum fuel a).
Proof.
  induction fuel as [|fuel IH]; intros a Ha; cbn [Np.pairwise_sum].
  - destruct (_ <? 8)%nat; [now apply loop_sum_closed|].
    destruct (_ <=? 128)%nat; [now apply block_sum_closed|now apply loop_sum_closed].
  - destruct (_ <? 8)%nat; [now apply loop_sum_closed|].
    destruct (_ <=? 128)%nat; [now apply block_sum_closed|].
    apply P_add; apply IH; [now apply Forall_firstn|now apply Forall_skipn].
Qed.

Lemma sum_closed a : Forall P a -> P (Np.sum a).
Proof. intros Ha. unfold Np.sum. apply P_add; [exact P_zero|now apply pairwise_sum_closed]. Qed.

End Closed.

Lemma select_Forall (P : F64.t -> Prop) a : forall idx,
  Forall P a -> Forall P (Np.select a idx).
Proof.
  induction a as [|x a IH]; intros [|b idx] Ha; cbn; try constructor.
  inversion Ha; subst. destruct b; [constructor|]; auto.
Qed.

Lemma select_length a : forall idx,
  length a = length idx -> length (Np.select a idx) = Np.count_true idx.
Proof.
  unfold Np.count_true.
  induction a as [|x a IH]; intros [|b idx] Hl; cbn in *; try congruence; try lia.
  assert (Hl' : length a = length idx) by lia.
  destruct b; cbn; rewrite IH; auto.
Qed.

(** [maximum] on finite values is the larger one. *)
Lemma leb_trans x y z :
  is_finite y = true -> leb x y = true -> leb y z = true -> leb x z = true.
Proof.
  destruct x as [|a|a j], y as [|b|b k], z as [|c|c l]; cbn;
    try discriminate; intros _ H1 H2; try assumption.
  - rewrite H1. reflexivity.
  - apply Z.leb_le in H1, H2. apply Z.leb_le. lia.
Qed.

Lemma leb_total x y :
  is_finite x = true -> is_finite y = true -> leb x y = false -> leb y x = true.
Proof.
  destruct x as [|a|a j], y as [|b|b k]; cbn; try discriminate.
  intros _ _ H. apply Z.leb_gt in H. apply Z.leb_le. lia.
Qed.

Lemma leb_refl x : is_finite x = true -> leb x x = true.
Proof. destruct x; cbn; try discriminate. intros _. apply Z.leb_refl. Qed.

Lemma fold_maximum rest : forall x,
  is_finite x = true -> Forall (fun v => is_finite v = true) rest ->
  let m := fold_left Np.maximum rest x in
  In m (x :: rest) /\ is_finite m = true /\
  Forall (fun v => leb v m = true) (x :: rest).
Proof.
  induction rest as [|y rest IH]; intros x Hx Hrest; cbn [fold_left].
  - cbn. repeat split; [now left|assumption|].
    constructor; [now apply leb_refl|constructor].
  - inversion Hrest as [|? ? Hy Hrest']; subst.
    assert (Hm : Np.maximum x y = x /\ leb y x = true \/
                 Np.maximum x y = y /\ leb x y = true).
    { unfold Np.maximum. destruct (leb y x) eqn:E.
      - left. tauto.
      - right. replace (is_nan x) with false by (destruct x; cbn in *; congruence).
        split; [reflexivity|]. now apply leb_total. }
    destruct Hm as [[-> Hle]|[-> Hle]].
    + destruct (IH x Hx Hrest') as (Hin & Hfin & Hall). cbv zeta in *.
      repeat split; [|assumption|].
      * destruct Hin as [<-|Hin]; [now left|right; now right].
      * inversion Hall; subst. constructor; [assumption|].
        constructor; [|assumption].
        eapply leb_trans; [exact Hx|exact Hle|assumption].
    + destruct (IH y Hy Hrest') as (Hin & Hfin & Hall). cbv zeta in *.
      repeat split; [|assumption|].
      * now right.
      * inversion Hall; subst. constructor; [|constructor; assumption].
        eapply leb_trans; [exact Hy|exact Hle|assumption].
Qed.

Lemma max_finite l :
  l <> [] -> Forall (fun v => is_finite v = true) l ->
  In (Np.max l) l /\ is_finite (Np.max l) = true /\
  Forall (fun v => leb v (Np.max l) = true) l.
Proof.
  destruct l as [|x rest]; [congruence|]. intros _ H. inversion H; subst.
  now apply fold_maximum.
Qed.

End Np_facts.

Module Rose_facts.
Import F64 F64_facts F64_ops Np_facts.

Lemma az_full_length strikes : length (az_full strikes) = (2 * length strikes)%nat.
Proof. unfold az_full. rewrite length_app, !length_map. lia. Qed.

Lemma bin_stat_ok az dd lo hi :
  length dd = length az ->
  bin_stat az dd lo hi = Ok (bin_count az (lo, hi), bin_mean az dd (lo, hi)).
Proof.
  intros Hl. unfold bin_stat, bin_count, bin_mean, bin_mask. cbn [fst snd].
  destruct (0 <? _)%nat; [|reflexivity].
  unfold Np.mask_index. rewrite length_map, Hl, Nat.eqb_refl. reflexivity.
Qed.

Lemma bin_loop_ok az dd es :
  length dd = length az ->
  bin_loop az dd es = Ok (map (fun e => (bin_count az e, bin_mean az dd e)) es).
Proof.
  intros Hl. induction es as [|[lo hi] es IH]; cbn [bin_loop map]; [reflexivity|].
  rewrite bin_stat_ok, IH by assumption. reflexivity.
Qed.

(** With as many dips as strikes the loop raises nothing. *)
Lemma generate_ok strikes dips :
  length strikes = length dips ->
  generate_rose_diagram strikes dips =
    Ok (mkRose (centers_of bins)
               (map (bin_count (az_full strikes)) edges)
               (map (bin_mean (az_full strikes) (dips ++ dips)) edges)
               (normalize (map (bin_mean (az_full strikes) (dips ++ dips)) edges))).
Proof.
  intros Hl. unfold generate_rose_diagram.
  rewrite bin_loop_ok by (rewrite length_app, az_full_length; lia).
  cbn [bind]. rewrite !map_map. cbn [fst snd].
  rewrite (map_ext _ (bin_count (az_full strikes))) by reflexivity.
  rewrite (map_ext _ (bin_mean (az_full strikes) (dips ++ dips))) by reflexivity.
  reflexivity.
Qed.

Lemma validate_nil strikes dips :
  validate strikes dips = [] <->
  (min_samples <= length strikes)%nat /\ length strikes = length dips.
Proof.
  unfold validate, min_samples.
  destruct (Nat.eqb_spec (length strikes) 0), (Nat.ltb_spec (length strikes) 25),
    (Nat.eqb_spec (length dips) 0), (Nat.ltb_spec (length dips) 25),
    (Nat.eqb_spec (length strikes) (length dips));
    cbn; split; intros HH; try discriminate; try lia; try reflexivity.
Qed.

(** The bin edges are exact in float64. *)
Lemma of_Z_bins : map of_Z bins = map (fun z => Fin false (z * one_mag)) bins.
Proof. vm_compute. reflexivity. Qed.

Lemma map_eq_In {A B} (f g : A -> B) l x :
  map f l = map g l -> In x l -> f x = g x.
Proof.
  induction l as [|y l IH]; cbn; [tauto|].
  intros E [->|Hin]; injection E; auto.
Qed.

Lemma bins_eq : bins = map (fun i => 10 * Z.of_nat i) (seq 0 37).
Proof. vm_compute. reflexivity. Qed.

Lemma of_Z_edge i : (i <= 36)%nat -> of_Z (10 * Z.of_nat i) = Fin false (10 * Z.of_nat i * one_mag).
Proof.
  intros Hi.
  apply (map_eq_In of_Z (fun z => Fin false (z * one_mag)) bins (10 * Z.of_nat i) of_Z_bins).
  rewrite bins_eq. apply (in_map (fun i => 10 * Z.of_nat i)), in_seq. lia.
Qed.

Lemma edges_eq : edges = map (fun i => (10 * Z.of_nat i, 10 * Z.of_nat (S i))) (seq 0 36).
Proof. vm_compute. reflexivity. Qed.

Lemma edge_eq i : (i <= 36)%nat -> edge i = Fin false (10 * Z.of_nat i * one_mag).
Proof.
  intros Hi. unfold edge. rewrite <- of_Z_edge by assumption. f_equal.
  rewrite bins_eq.
  rewrite (nth_indep _ 0 ((fun i => 10 * Z.of_nat i) 0%nat))
    by (rewrite length_map, length_seq; lia).
  rewrite (map_nth (fun i => 10 * Z.of_nat i)), seq_nth by lia. reflexivity.
Qed.

(** Membership of a finite value in bin [i], as an integer comparison. *)
Lemma in_bin_fin i s k :
  (i < 36)%nat ->
  in_bin (of_Z (10 * Z.of_nat i)) (of_Z (10 * Z.of_nat (S i))) (Fin s k) =
    (10 * Z.of_nat i * one_mag <=? sval s k) && (sval s k <? 10 * Z.of_nat (S i) * one_mag).
Proof.
  intros Hi. rewrite !of_Z_edge by lia. reflexivity.
Qed.

Lemma in_range_fin s k :
  in_range (Fin s k) = (0 <=? sval s k) && (sval s k <? 360 * one_mag).
Proof.
  unfold in_range. change 360 with (10 * Z.of_nat 36). rewrite of_Z_edge by lia. reflexivity.
Qed.

Lemma in_range_finite v : in_range v = true -> exists s k, v = Fin s k.
Proof.
  unfold in_range. change 360 with (10 * Z.of_nat 36). rewrite of_Z_edge by lia.
  destruct v as [|s|s k]; cbn; try discriminate.
  - destruct s; discriminate.
  - intros _. eauto.
Qed.

End Rose_facts.

Module Bin_facts.
Import F64 F64_facts F64_ops Np_facts Rose_facts.

Lemma edge_of_Z i : (i <= 36)%nat -> edge i = of_Z (10 * Z.of_nat i).
Proof. intros Hi. rewrite edge_eq, of_Z_edge by assumption. reflexivity. Qed.

Lemma in_bin_edge_fin j s k :
  (j < 36)%nat ->
  in_bin (edge j) (edge (S j)) (Fin s k) =
    (10 * Z.of_nat j * one_mag <=? sval s k) && (sval s k <? 10 * Z.of_nat (S j) * one_mag).
Proof. intros Hj. rewrite !edge_eq by lia. reflexivity. Qed.

Lemma in_bin_in_range j v :
  (j < 36)%nat -> in_bin (edge j) (edge (S j)) v = true -> in_range v = true.
Proof.
  intros Hj. destruct v as [|s|s k].
  - rewrite !edge_eq by lia. discriminate.
  - rewrite !edge_eq by lia. destruct s; discriminate.
  - rewrite in_bin_edge_fin, in_range_fin by assumption.
    pose proof one_mag_pos.
    intros HH. apply andb_prop in HH as [H1 H2].
    apply Z.leb_le in H1. apply Z.ltb_lt in H2.
    apply andb_true_intro. split; [apply Z.leb_le|apply Z.ltb_lt]; nia.
Qed.

Lemma bin_index v :
  in_range v = true ->
  exists i, (i < 36)%nat /\
    forall j, (j < 36)%nat -> (in_bin (edge j) (edge (S j)) v = true <-> j = i).
Proof.
  intros Hv. destruct (in_range_finite v Hv) as (s & k & ->).
  rewrite in_range_fin in Hv. apply andb_prop in Hv as [H0 H360].
  apply Z.leb_le in H0. apply Z.ltb_lt in H360.
  pose proof one_mag_pos as HU.
  set (x := sval s k) in *.
  pose proof (Z.div_mod x (10 * one_mag) ltac:(lia)) as Hdm.
  pose proof (Z.mod_pos_bound x (10 * one_mag) ltac:(lia)) as Hm.
  assert (Hq : 0 <= x / (10 * one_mag) < 36).
  { split; [apply Z.div_pos; lia|apply Z.div_lt_upper_bound; lia]. }
  exists (Z.to_nat (x / (10 * one_mag))). split; [lia|].
  intros j Hj. rewrite in_bin_edge_fin by assumption. fold x.
  rewrite andb_true_iff, Z.leb_le, Z.ltb_lt. split.
  - intros [Hlo Hhi].
    assert (x / (10 * one_mag) = Z.of_nat j); [|lia].
    symmetry. apply (Z.div_unique x (10 * one_mag) (Z.of_nat j) (x - 10 * one_mag * Z.of_nat j)); lia.
  - intros ->. rewrite Nat2Z.inj_succ, Z2Nat.id by lia. nia.
Qed.

Lemma unique_filter_seq (f : nat -> bool) n i :
  (i < n)%nat -> (forall j, (j < n)%nat -> (f j = true <-> j = i)) ->
  length (filter f (seq 0 n)) = 1%nat.
Proof.
  intros Hi Hf.
  assert (Hin : In i (filter f (seq 0 n))).
  { apply filter_In. split; [apply in_seq; lia|]. now apply Hf. }
  assert (Hall : forall j, In j (filter f (seq 0 n)) -> j = i).
  { intros j Hj. apply filter_In in Hj as [Hj Hfj]. apply in_seq in Hj.
    apply Hf; [lia|assumption]. }
  assert (Hnd : NoDup (filter f (seq 0 n))) by (apply NoDup_filter, seq_NoDup).
  destruct (filter f (seq 0 n)) as [|a [|b l]]; [destruct Hin|reflexivity|].
  exfalso. inversion Hnd as [|? ? Hna _]; subst. apply Hna.
  rewrite (Hall a), (Hall b); cbn; auto.
Qed.

Lemma empty_filter {A} (f : A -> bool) l :
  (forall x, In x l -> f x = false) -> filter f l = [].
Proof.
  induction l as [|x l IH]; cbn; [reflexivity|]. intros H.
  rewrite (H x) by auto. apply IH. auto.
Qed.

(** The number of bins that count a given azimuth. *)
Lemma hits v :
  length (filter (fun j => in_bin (edge j) (edge (S j)) v) (seq 0 36)) =
    if in_range v then 1%nat else 0%nat.
Proof.
  destruct (in_range v) eqn:Hv.
  - destruct (bin_index v Hv) as (i & Hi & Hu).
    now apply (unique_filter_seq _ 36 i).
  - rewrite empty_filter; [reflexivity|].
    intros j Hj. apply in_seq in Hj.
    destruct (in_bin (edge j) (edge (S j)) v) eqn:E; [|reflexivity].
    apply in_bin_in_range in E; [congruence|lia].
Qed.

Lemma count_true_map {A} (f : A -> bool) l :
  Np.count_true (map f l) = length (filter f l).
Proof.
  unfold Np.count_true. induction l as [|x l IH]; cbn; [reflexivity|].
  destruct (f x); cbn; rewrite IH; reflexivity.
Qed.

Lemma bin_counts_eq az :
  map (bin_count az) edges =
  map (fun i => length (filter (in_bin (edge i) (edge (S i))) az)) (seq 0 36).
Proof.
  rewrite edges_eq, map_map. apply map_ext_in. intros i Hi. apply in_seq in Hi.
  unfold bin_count, bin_mask. cbn [fst snd]. rewrite count_true_map.
  rewrite !edge_of_Z by lia. reflexivity.
Qed.

Lemma sum_counts_cons v az js :
  fold_right Nat.add O
    (map (fun i => length (filter (in_bin (edge i) (edge (S i))) (v :: az))) js) =
  (length (filter (fun j => in_bin (edge j) (edge (S j)) v) js) +
   fold_right Nat.add O
     (map (fun i => length (filter (in_bin (edge i) (edge (S i))) az)) js))%nat.
Proof.
  induction js as [|j js IH]; [reflexivity|].
  cbn [map fold_right]. rewrite IH. cbn [filter].
  destruct (in_bin (edge j) (edge (S j)) v); cbn [length]; lia.
Qed.

Lemma sum_counts az js :
  fold_right Nat.add O (map (fun i => length (filter (in_bin (edge i) (edge (S i))) az)) js) =
  fold_right Nat.add O
    (map (fun v => length (filter (fun j => in_bin (edge j) (edge (S j)) v) js)) az).
Proof.
  induction az as [|v az IH].
  - cbn. induction js; cbn; auto.
  - rewrite sum_counts_cons, IH. reflexivity.
Qed.

Lemma sum_indicator {A} (f : A -> bool) l :
  fold_right Nat.add O (map (fun v => if f v then 1 else 0)%nat l) = length (filter f l).
Proof.
  induction l as [|x l IH]; cbn; [reflexivity|]. rewrite IH. destruct (f x); reflexivity.
Qed.

Lemma total_in_range az :
  fold_right Nat.add O (map (bin_count az) edges) = length (filter in_range az).
Proof.
  rewrite bin_counts_eq, sum_counts, <- sum_indicator. f_equal.
  apply map_ext. intros v. apply hits.
Qed.

Lemma bin_stat_count az dd lo hi c m :
  bin_stat az dd lo hi = Ok (c, m) -> c = bin_count az (lo, hi).
Proof.
  unfold bin_stat, bin_count, bin_mask. cbn [fst snd].
  destruct (0 <? _)%nat.
  - destruct (Np.mask_index dd _); cbn [bind]; congruence.
  - congruence.
Qed.

Lemma bin_loop_counts az dd : forall es stats,
  bin_loop az dd es = Ok stats -> map fst stats = map (bin_count az) es.
Proof.
  induction es as [|[lo hi] es IH]; cbn [bin_loop]; intros stats H.
  - injection H as <-. reflexivity.
  - destruct (bin_stat az dd lo hi) as [[c m]|] eqn:Es; cbn [bind] in H; [|discriminate].
    destruct (bin_loop az dd es) as [ss|]; cbn [bind] in H; [|discriminate].
    injection H as <-. cbn [map fst]. f_equal; [|now apply IH].
    now apply (bin_stat_count _ _ _ _ _ _ Es).
Qed.

Lemma generate_counts strikes dips fig :
  generate_rose_diagram strikes dips = Ok fig ->
  counts fig = map (bin_count (az_full strikes)) edges.
Proof.
  unfold generate_rose_diagram. intros H.
  destruct (bin_loop _ _ edges) as [stats|] eqn:E; cbn [bind] in H; [|discriminate].
  injection H as <-. cbn [counts]. now apply (bin_loop_counts _ _ _ _ E).
Qed.

End Bin_facts.

Module Whole_facts.
Import F64 F64_facts F64_ops Np_facts Rose_facts Bin_facts.

Lemma digits_bound_strict q t : 0 <= q < 2 ^ t -> 0 <= t -> digits q <= t.
Proof.
  intros Hq Ht. unfold digits.
  destruct (Z.eqb_spec q 0) as [|Hne]; [lia|].
  assert (Z.log2 q < t) by (apply Z.log2_lt_pow2; lia). lia.
Qed.

(** An integer below [2^53] is a float64 and needs no rounding. *)
Lemma round_int_exact neg m :
  0 <= m < 2 ^ 53 -> round neg (m * one_mag) 1 = Fin neg (m * one_mag).
Proof.
  intros Hm. pose proof one_mag_pos as HU.
  destruct (round_spec neg (m * one_mag) 1 ltac:(nia) ltac:(lia))
    as (s & k & Hs & Hk & Hex & ->).
  cbv zeta in *. rewrite Z.div_1_r, Z.mod_1_r in *.
  assert (Hs' : 0 <= s <= 1074).
  { assert (digits (m * one_mag) <= 1127); [|lia].
    apply digits_bound_strict; [|lia]. split; [nia|].
    replace (2 ^ 1127) with (2 ^ 53 * one_mag)
      by (unfold one_mag; rewrite <- Z.pow_add_r by lia; reflexivity).
    nia. }
  assert (Hp : 0 < 2 ^ s) by (apply Z.pow_pos_nonneg; lia).
  assert (Hsplit : one_mag = 2 ^ (1074 - s) * 2 ^ s).
  { unfold one_mag. rewrite <- Z.pow_add_r by lia. f_equal. lia. }
  assert (Hq : m * one_mag / 2 ^ s * 2 ^ s = m * one_mag).
  { rewrite Hsplit, Z.mul_assoc, Z.div_mul by lia. reflexivity. }
  assert (k = m * one_mag / 2 ^ s) by (apply Hex; lia). subst k.
  rewrite Hq.
  assert (m * one_mag < overflow_mag).
  { rewrite overflow_mag_eq.
    assert (2 ^ 53 < 2 ^ 1024) by (apply Z.pow_lt_mono_r; lia). nia. }
  destruct (Z.leb_spec overflow_mag (m * one_mag)); [lia|reflexivity].
Qed.

Lemma of_Z_exact z :
  Z.abs z < 2 ^ 53 -> of_Z z = Fin (z <? 0) (Z.abs z * one_mag).
Proof.
  intros Hz. unfold of_Z. rewrite Z.shiftl_mul_pow2 by lia. fold one_mag.
  apply round_int_exact. lia.
Qed.

(** [z % b] on whole numbers is the integer remainder. *)
Lemma remainder_whole z b :
  Z.abs z < 2 ^ 53 -> 0 < b < 2 ^ 52 ->
  Np.remainder (of_Z z) (of_Z b) = Fin false (z mod b * one_mag).
Proof.
  intros Hz Hb. pose proof one_mag_pos as HU.
  rewrite (of_Z_exact z Hz), (of_Z_exact b) by lia.
  destruct (Z.ltb_spec b 0); [lia|]. rewrite (Z.abs_eq b) by lia.
  unfold Np.remainder. rewrite fmod_exact by nia.
  rewrite Z.mul_mod_distr_r by lia.
  assert (Hzero : Np.is_zero (Fin false (b * one_mag)) = false).
  { unfold Np.is_zero. destruct (b * one_mag) eqn:E; [nia|reflexivity|reflexivity]. }
  rewrite Hzero. cbn [signbit ltb zero sval].
  pose proof (Z.mod_pos_bound (Z.abs z) b ltac:(lia)) as Hr.
  pose proof (Z.mod_pos_bound z b ltac:(lia)) as Hr'.
  destruct (Z.eq_dec (Z.abs z mod b) 0) as [E0|Hne].
  - rewrite E0. cbn [Z.mul Np.is_zero].
    assert (z mod b = 0); [|now rewrite H0].
    destruct (Z.ltb_spec z 0).
    + rewrite Z.abs_neq in E0 by lia.
      apply Z.mod_divide in E0; [|lia]. apply Z.mod_divide; [lia|].
      destruct E0 as [q Hq]. exists (- q). lia.
    + rewrite Z.abs_eq in E0 by lia. exact E0.
  - assert (Hnz : Np.is_zero (Fin (z <? 0) (Z.abs z mod b * one_mag)) = false).
    { unfold Np.is_zero. destruct (Z.abs z mod b * one_mag) eqn:E; [nia|reflexivity|reflexivity]. }
    rewrite Hnz.
    destruct (Z.ltb_spec z 0) as [Hneg|Hpos]; cbn [sval].
    + assert (Hlt : (- (Z.abs z mod b * one_mag) <? 0) = true) by (apply Z.ltb_lt; nia).
      assert (Hb0 : (b * one_mag <? 0) = false) by (apply Z.ltb_ge; nia).
      rewrite Hlt, Hb0. cbn [xorb add sval].
      assert (Em : z mod b = b - Z.abs z mod b).
      { rewrite Z.abs_neq by lia.
        rewrite (Z.mod_opp_l_nz z b) in * by
          (try lia; intros E; apply Hne; rewrite Z.abs_neq by lia;
           rewrite Z.mod_opp_l_z; lia).
        rewrite Z.abs_neq in Hne by lia. lia. }
      rewrite Em.
      replace (- (Z.abs z mod b * one_mag) + b * one_mag)
        with ((b - Z.abs z mod b) * one_mag) by ring.
      destruct (Z.eqb_spec ((b - Z.abs z mod b) * one_mag) 0); [nia|].
      destruct (Z.ltb_spec ((b - Z.abs z mod b) * one_mag) 0); [nia|].
      rewrite Z.abs_eq by nia. apply round_int_exact. lia.
    + assert (Hlt : (Z.abs z mod b * one_mag <? 0) = false) by (apply Z.ltb_ge; nia).
      assert (Hb0 : (b * one_mag <? 0) = false) by (apply Z.ltb_ge; nia).
      rewrite Hlt, Hb0. cbn [xorb]. rewrite Z.abs_eq by lia. reflexivity.
Qed.

Lemma mod_360_180 z : (z mod 360) mod 180 = z mod 180.
Proof.
  rewrite (Z.div_mod z 360) at 2 by lia.
  replace (360 * (z / 360) + z mod 360) with (z mod 360 + (2 * (z / 360)) * 180) by ring.
  now rewrite Z_mod_plus_full.
Qed.

(** The folded azimuth of a whole strike, and its double. *)
Lemma fold_whole z :
  Z.abs z < 2 ^ 53 ->
  Np.remainder (Np.remainder (of_Z z) (of_Z 360)) (of_Z 180) =
    Fin false (z mod 180 * one_mag).
Proof.
  intros Hz. rewrite remainder_whole by (first [assumption | split; [lia|reflexivity]]).
  pose proof (Z.mod_pos_bound z 360 ltac:(lia)) as Hr.
  assert (Hs : Z.abs (z mod 360) < 2 ^ 53).
  { rewrite Z.abs_eq by lia. assert (360 < 2 ^ 53) by reflexivity. lia. }
  replace (Fin false (z mod 360 * one_mag)) with (of_Z (z mod 360)).
  - rewrite remainder_whole by (first [assumption | split; [lia|reflexivity]]).
    now rewrite mod_360_180.
  - rewrite of_Z_exact by assumption.
    destruct (Z.ltb_spec (z mod 360) 0); [lia|]. now rewrite Z.abs_eq by lia.
Qed.

Lemma double_whole a :
  0 <= a < 180 ->
  add (Fin false (a * one_mag)) (of_Z 180) = Fin false ((a + 180) * one_mag).
Proof.
  intros Ha. pose proof one_mag_pos as HU.
  rewrite (of_Z_exact 180) by reflexivity.
  change (180 <? 0) with false. change (Z.abs 180) with 180.
  cbn [add sval].
  replace (a * one_mag + 180 * one_mag) with ((a + 180) * one_mag) by ring.
  destruct (Z.eqb_spec ((a + 180) * one_mag) 0); [nia|].
  destruct (Z.ltb_spec ((a + 180) * one_mag) 0); [nia|].
  rewrite Z.abs_eq by nia. apply round_int_exact.
  assert (360 < 2 ^ 53) by reflexivity. lia.
Qed.

Lemma az_full_whole zs :
  Forall (fun z => Z.abs z < 2 ^ 53) zs ->
  az_full (map of_Z zs) =
    map (fun z => Fin false (z mod 180 * one_mag)) zs ++
    map (fun z => Fin false ((z mod 180 + 180) * one_mag)) zs.
Proof.
  intros H. unfold az_full. cbv zeta. rewrite !map_map. f_equal.
  - apply map_ext_in. intros z Hz. rewrite Forall_forall in H. apply fold_whole. auto.
  - apply map_ext_in. intros z Hz. rewrite Forall_forall in H.
    rewrite fold_whole by auto. apply double_whole.
    apply Z.mod_pos_bound. lia.
Qed.

End Whole_facts.

Module Whole_strikes.
Import F64 F64_facts F64_ops Np_facts Rose_facts Bin_facts Whole_facts.

Lemma filter_all {A} (f : A -> bool) l :
  (forall x, In x l -> f x = true) -> filter f l = l.
Proof.
  induction l as [|x l IH]; cbn; [reflexivity|]. intros H.
  rewrite (H x) by auto. f_equal. apply IH. auto.
Qed.

Lemma scaled_leb x y : (x * one_mag <=? y * one_mag) = (x <=? y).
Proof.
  pose proof one_mag_pos.
  destruct (Z.leb_spec x y), (Z.leb_spec (x * one_mag) (y * one_mag)); try reflexivity; nia.
Qed.

Lemma scaled_ltb x y : (x * one_mag <? y * one_mag) = (x <? y).
Proof.
  pose proof one_mag_pos.
  destruct (Z.ltb_spec x y), (Z.ltb_spec (x * one_mag) (y * one_mag)); try reflexivity; nia.
Qed.

(** Bin membership of a whole azimuth is a comparison of integers. *)
Lemma in_bin_whole i a :
  (i < 36)%nat ->
  in_bin (of_Z (10 * Z.of_nat i)) (of_Z (10 * Z.of_nat (S i))) (Fin false (a * one_mag)) =
    (10 * Z.of_nat i <=? a) && (a <? 10 * Z.of_nat (S i)).
Proof.
  intros Hi. rewrite in_bin_fin by assumption. cbn [sval].
  now rewrite scaled_leb, scaled_ltb.
Qed.

(** X19: for whole-number strikes the counts add up to exactly twice the
    number of samples. *)
Theorem whole_count_conservation zs dips :
  Forall (fun z => Z.abs z < 2 ^ 53) zs -> length zs = length dips ->
  exists fig,
    generate_rose_diagram (map of_Z zs) dips = Ok fig /\
    total_count fig = (2 * length zs)%nat.
Proof.
  intros Hz Hl.
  rewrite generate_ok by (rewrite length_map; exact Hl).
  eexists; split; [reflexivity|]. unfold total_count. cbn [counts].
  rewrite total_in_range, filter_all.
  - rewrite az_full_length, length_map. reflexivity.
  - intros v Hv. rewrite az_full_whole in Hv by assumption.
    apply in_app_or in Hv as [Hv|Hv]; apply in_map_iff in Hv as (z & <- & _);
      rewrite in_range_fin; cbn [sval];
      change 0 with (0 * one_mag); rewrite scaled_leb, scaled_ltb;
      pose proof (Z.mod_pos_bound z 180 ltac:(lia));
      apply andb_true_intro; split; [apply Z.leb_le|apply Z.ltb_lt| apply Z.leb_le|apply Z.ltb_lt]; lia.
Qed.

Lemma select_app a : forall m b m',
  length a = length m ->
  Np.select (a ++ b) (m ++ m') = Np.select a m ++ Np.select b m'.
Proof.
  induction a as [|x a IH]; intros [|c m] b m' Hl; cbn in Hl; try lia.
  - reflexivity.
  - cbn [app Np.select]. rewrite IH by lia. destruct c; reflexivity.
Qed.

Lemma select_none a : forall n, Np.select a (repeat false n) = [].
Proof. induction a as [|x a IH]; intros [|n]; cbn; auto. Qed.

Lemma count_true_app m m' : Np.count_true (m ++ m') = (Np.count_true m + Np.count_true m')%nat.
Proof. unfold Np.count_true. now rewrite filter_app, length_app. Qed.

Lemma count_true_none n : Np.count_true (repeat false n) = 0%nat.
Proof. unfold Np.count_true. induction n; cbn; auto. Qed.

Lemma map_false {A} (f : A -> bool) l :
  (forall x, In x l -> f x = false) -> map f l = repeat false (length l).
Proof.
  induction l as [|x l IH]; cbn; [reflexivity|]. intros H.
  rewrite (H x) by auto. f_equal. apply IH. auto.
Qed.

(** The masks of bin [i] and of the opposite bin [i + 18] on whole strikes:
    the same pattern, on the first and on the second half. *)
Lemma masks_whole zs i :
  Forall (fun z => Z.abs z < 2 ^ 53) zs -> (i < 18)%nat ->
  exists m, length m = length zs /\
    bin_mask (az_full (map of_Z zs)) (10 * Z.of_nat i, 10 * Z.of_nat (S i)) =
      m ++ repeat false (length zs) /\
    bin_mask (az_full (map of_Z zs)) (10 * Z.of_nat (i + 18), 10 * Z.of_nat (S (i + 18))) =
      repeat false (length zs) ++ m.
Proof.
  intros Hz Hi.
  exists (map (fun z => (10 * Z.of_nat i <=? z mod 180) && (z mod 180 <? 10 * Z.of_nat (S i))) zs).
  split; [apply length_map|].
  rewrite az_full_whole by assumption. unfold bin_mask. cbn [fst snd].
  rewrite !map_app, !map_map. split; f_equal.
  - apply map_ext. intros z. apply in_bin_whole. lia.
  - rewrite <- (length_map (fun z => z) zs) at 1. rewrite map_id.
    apply map_false. intros z _. rewrite in_bin_whole by lia.
    pose proof (Z.mod_pos_bound z 180 ltac:(lia)).
    apply andb_false_intro2. apply Z.ltb_ge. lia.
  - apply map_false. intros z _. rewrite in_bin_whole by lia.
    pose proof (Z.mod_pos_bound z 180 ltac:(lia)).
    apply andb_false_intro1. apply Z.leb_gt. lia.
  - apply map_ext. intros z. rewrite in_bin_whole by lia.
    f_equal.
    + destruct (Z.leb_spec (10 * Z.of_nat (i + 18)) (z mod 180 + 180)),
               (Z.leb_spec (10 * Z.of_nat i) (z mod 180)); try reflexivity; lia.
    + destruct (Z.ltb_spec (z mod 180 + 180) (10 * Z.of_nat (S (i + 18)))),
               (Z.ltb_spec (z mod 180) (10 * Z.of_nat (S i))); try reflexivity; lia.
Qed.

Lemma nth_edges i :
  (i < 36)%nat -> nth i edges (0, 0) = (10 * Z.of_nat i, 10 * Z.of_nat (S i)).
Proof.
  intros Hi. rewrite edges_eq.
  rewrite (nth_indep _ (0, 0) ((fun i => (10 * Z.of_nat i, 10 * Z.of_nat (S i))) 0%nat))
    by (rewrite length_map, length_seq; lia).
  rewrite (map_nth (fun i => (10 * Z.of_nat i, 10 * Z.of_nat (S i)))), seq_nth by lia.
  reflexivity.
Qed.

Lemma nth_map_edges {B} (f : Z * Z -> B) i d :
  (i < 36)%nat ->
  nth i (map f edges) d = f (10 * Z.of_nat i, 10 * Z.of_nat (S i)).
Proof.
  intros Hi. rewrite (nth_indep _ d (f (0, 0))) by (rewrite length_map, edges_eq, length_map, length_seq; lia).
  rewrite map_nth, nth_edges by assumption. reflexivity.
Qed.

Lemma nth_normalize means i :
  nth i (normalize means) NaN =
    if ltb zero (Np.max means) then div (nth i means NaN) (Np.max means)
    else nth i means NaN.
Proof.
  unfold normalize. destruct (ltb zero (Np.max means)); [|reflexivity].
  change NaN with ((fun m => div m (Np.max means)) NaN) at 1.
  apply map_nth.
Qed.

(** X20: for whole-number strikes bin [i] and the opposite bin [i + 18]
    agree in count, mean dip and normalised dip. *)
Theorem whole_point_symmetry zs dips :
  Forall (fun z => Z.abs z < 2 ^ 53) zs -> length zs = length dips ->
  exists fig,
    generate_rose_diagram (map of_Z zs) dips = Ok fig /\
    forall i, (i < 18)%nat ->
      nth i (counts fig) O = nth (i + 18) (counts fig) O /\
      nth i (dip_means fig) NaN = nth (i + 18) (dip_means fig) NaN /\
      nth i (dip_norm fig) NaN = nth (i + 18) (dip_norm fig) NaN.
Proof.
  intros Hz Hl.
  rewrite generate_ok by (rewrite length_map; exact Hl).
  eexists; split; [reflexivity|]. cbn [counts dip_means dip_norm].
  intros i Hi.
  destruct (masks_whole zs i Hz Hi) as (m & Hm & E1 & E2).
  assert (Hc : bin_count (az_full (map of_Z zs)) (10 * Z.of_nat i, 10 * Z.of_nat (S i)) =
               bin_count (az_full (map of_Z zs))
                 (10 * Z.of_nat (i + 18), 10 * Z.of_nat (S (i + 18)))).
  { unfold bin_count. rewrite E1, E2, !count_true_app, count_true_none. lia. }
  assert (Hmean : bin_mean (az_full (map of_Z zs)) (dips ++ dips)
                    (10 * Z.of_nat i, 10 * Z.of_nat (S i)) =
                  bin_mean (az_full (map of_Z zs)) (dips ++ dips)
                    (10 * Z.of_nat (i + 18), 10 * Z.of_nat (S (i + 18)))).
  { unfold bin_mean. rewrite <- Hc. rewrite E1, E2.
    rewrite !select_app by (rewrite ?repeat_length; lia).
    rewrite !select_none, app_nil_r. reflexivity. }
  rewrite !nth_normalize, !nth_map_edges by lia.
  rewrite Hc, Hmean. auto.
Qed.

(** X21: for whole-number strikes the figure depends on each strike modulo
    180 only. *)
Theorem whole_axial_fold zs zs' dips :
  Forall (fun z => Z.abs z < 2 ^ 53) zs -> Forall (fun z => Z.abs z < 2 ^ 53) zs' ->
  Forall2 (fun z z' => z mod 180 = z' mod 180) zs zs' ->
  generate_rose_diagram (map of_Z zs) dips = generate_rose_diagram (map of_Z zs') dips.
Proof.
  intros Hz Hz' H2. unfold generate_rose_diagram.
  rewrite !az_full_whole by assumption.
  assert (E : map (fun z => z mod 180) zs = map (fun z => z mod 180) zs').
  { induction H2; cbn; [reflexivity|]. inversion Hz; inversion Hz'; subst. f_equal; auto. }
  rewrite <- (map_map (fun z => z mod 180) (fun a => Fin false (a * one_mag)) zs).
  rewrite <- (map_map (fun z => z mod 180) (fun a => Fin false ((a + 180) * one_mag)) zs).
  rewrite <- (map_map (fun z => z mod 180) (fun a => Fin false (a * one_mag)) zs').
  rewrite <- (map_map (fun z => z mod 180) (fun a => Fin false ((a + 180) * one_mag)) zs').
  rewrite E. reflexivity.
Qed.

End Whole_strikes.

Module Text_facts.

Lemma rstrip_empty s : Py.is_empty (Py.rstrip s) = blank s.
Proof.
  induction s as [|c s IH]; cbn [Py.rstrip blank]; [reflexivity|].
  rewrite <- IH. destruct (Py.is_space c), (Py.is_empty (Py.rstrip s)); reflexivity.
Qed.

Lemma lstrip_blank s : blank (Py.lstrip s) = blank s.
Proof.
  induction s as [|c s IH]; cbn [Py.lstrip blank]; [reflexivity|].
  destruct (Py.is_space c) eqn:E; cbn [blank andb]; [exact IH|].
  rewrite E. reflexivity.
Qed.

Lemma strip_empty s : Py.is_empty (Py.strip s) = blank s.
Proof. unfold Py.strip. rewrite rstrip_empty. apply lstrip_blank. Qed.

Lemma split_replace s :
  Py.split "," (Py.replace newline "," s) = split_any s.
Proof.
  induction s as [|c s IH]; [reflexivity|].
  cbn [Py.replace split_any].
  destruct (Ascii.eqb_spec c newline) as [->|Hn].
  - rewrite orb_true_r. cbn [append Py.split]. rewrite Ascii.eqb_refl, IH. reflexivity.
  - rewrite orb_false_r. cbn [Py.split]. rewrite IH. reflexivity.
Qed.

Lemma replace_commute s :
  Py.replace " " "" (Py.replace newline "," s) =
  Py.replace newline "," (Py.replace " " "" s).
Proof.
  induction s as [|c s IH]; [reflexivity|].
  cbn [Py.replace].
  destruct (Ascii.eqb_spec c newline) as [->|Hn].
  - change (Ascii.eqb newline " ") with false.
    cbn [append Py.replace]. change (Ascii.eqb "," " ") with false.
    rewrite Ascii.eqb_refl, IH. reflexivity.
  - destruct (Ascii.eqb_spec c " ") as [->|Hs].
    + cbn [append Py.replace]. rewrite Ascii.eqb_refl. cbn [append]. exact IH.
    + cbn [Py.replace]. rewrite (proj2 (Ascii.eqb_neq _ _) Hs), (proj2 (Ascii.eqb_neq _ _) Hn).
      rewrite IH. reflexivity.
Qed.

Lemma traverse_strip {B} (f : string -> result B) l :
  traverse (fun x => f (Py.strip x))
           (filter (fun x => negb (Py.is_empty (Py.strip x))) l) =
  traverse f (filter (fun x => negb (Py.is_empty x)) (map Py.strip l)).
Proof.
  induction l as [|x l IH]; cbn [filter map]; [reflexivity|].
  destruct (Py.is_empty (Py.strip x)); cbn [negb traverse]; rewrite IH; reflexivity.
Qed.

Lemma blank_replace s : blank s = true -> blank (Py.replace " " "" s) = true.
Proof.
  induction s as [|c s IH]; cbn [blank Py.replace]; [reflexivity|].
  intros H. apply andb_prop in H as [Hc Hs].
  destruct (Ascii.eqb c " "); cbn; [auto|]. rewrite Hc. cbn. auto.
Qed.

Lemma blank_split s :
  blank s = true -> Forall (fun p => blank p = true) (split_any s).
Proof.
  induction s as [|c s IH]; cbn [blank split_any].
  - intros _. repeat constructor.
  - intros H. apply andb_prop in H as [Hc Hs]. specialize (IH Hs).
    destruct (Ascii.eqb c "," || Ascii.eqb c newline)%bool.
    + constructor; [reflexivity|assumption].
    + destruct (split_any s) as [|piece rest].
      * repeat constructor. cbn. rewrite Hc. reflexivity.
      * inversion IH; subst. constructor; [|assumption]. cbn. rewrite Hc. assumption.
Qed.

Lemma blank_tokens s : blank s = true -> spec_tokens (Py.replace " " "" s) = [].
Proof.
  intros H. apply blank_replace, blank_split in H. unfold spec_tokens.
  induction H as [|p l Hp _ IH]; cbn [map filter]; [reflexivity|].
  rewrite strip_empty, Hp. exact IH.
Qed.

(** [parse_input] against the specification's wording: the same pipeline,
    run on the text with every space deleted. *)
Lemma parse_input_tokens text :
  parse_input text = traverse float_or_raise (spec_tokens (Py.replace " " "" text)).
Proof.
  unfold parse_input. rewrite strip_empty.
  destruct (blank text) eqn:E.
  - rewrite blank_tokens by assumption. reflexivity.
  - rewrite replace_commute, split_replace. unfold spec_tokens. apply traverse_strip.
Qed.

Lemma traverse_raise {A B} (f : A -> result B) l e :
  traverse f l = Raise e -> exists x, In x l /\ f x = Raise e.
Proof.
  induction l as [|x l IH]; cbn [traverse]; [discriminate|].
  destruct (f x) as [y|e'] eqn:E; cbn [bind].
  - destruct (traverse f l) as [ys|e'']; cbn [bind]; [discriminate|].
    intros H. injection H as ->. destruct (IH eq_refl) as (x' & Hin & Hx').
    exists x'. split; [now right|assumption].
  - intros H. injection H as ->. exists x. split; [now left|assumption].
Qed.

Lemma traverse_ok {A B} (f : A -> result B) l ys :
  traverse f l = Ok ys -> Forall2 (fun x y => f x = Ok y) l ys.
Proof.
  revert ys. induction l as [|x l IH]; cbn [traverse]; intros ys H.
  - injection H as <-. constructor.
  - destruct (f x) as [y|] eqn:E; cbn [bind] in H; [|discriminate].
    destruct (traverse f l) as [ys'|]; cbn [bind] in H; [|discriminate].
    injection H as <-. constructor; auto.
Qed.

End Text_facts.

Module Validate_facts.

Local Open Scope string_scope.

Lemma strike_too_few_other n :
  strike_too_few n <> strike_empty /\ strike_too_few n <> dip_empty /\
  (forall m, strike_too_few n <> dip_too_few m) /\
  (forall a b, strike_too_few n <> length_mismatch a b).
Proof.
  unfold strike_too_few, strike_empty, dip_empty, dip_too_few, length_mismatch.
  repeat split; intros; cbn [append]; congruence.
Qed.

Lemma dip_too_few_other n :
  dip_too_few n <> strike_empty /\ dip_too_few n <> dip_empty /\
  (forall m, dip_too_few n <> strike_too_few m) /\
  (forall a b, dip_too_few n <> length_mismatch a b).
Proof.
  unfold strike_too_few, strike_empty, dip_empty, dip_too_few, length_mismatch.
  repeat split; intros; cbn [append]; congruence.
Qed.

Lemma length_mismatch_other a b :
  length_mismatch a b <> strike_empty /\ length_mismatch a b <> dip_empty /\
  (forall m, length_mismatch a b <> strike_too_few m) /\
  (forall m, length_mismatch a b <> dip_too_few m).
Proof.
  unfold strike_too_few, strike_empty, dip_empty, dip_too_few, length_mismatch.
  repeat split; intros; cbn [append]; congruence.
Qed.

End Validate_facts.

Module Mean_facts.
Import F64 F64_facts F64_ops Np_facts Rose_facts Bin_facts.

Lemma nonneg_leb x : nonneg x -> leb zero x = true.
Proof.
  destruct x as [|s|s k]; cbn; [tauto|intros ->; reflexivity|].
  intros H. rewrite (sval_nonneg _ _ H). apply Z.leb_le. tauto.
Qed.

(** The mean dip of a bin is zero for an empty bin and otherwise an average
    over a non-empty selection of the dips. *)
Lemma bin_mean_cases az dd e :
  length dd = length az ->
  bin_mean az dd e = zero \/
  exists sel, Forall (fun d => In d dd) sel /\
              bin_mean az dd e = div (Np.sum sel) (of_Z (Z.of_nat (length sel))) /\
              (0 < length sel)%nat.
Proof.
  intros Hl. unfold bin_mean.
  destruct (Nat.ltb_spec 0 (bin_count az e)) as [Hc|Hc]; [right|now left].
  exists (Np.select dd (bin_mask az e)).
  assert (Hlen : length (Np.select dd (bin_mask az e)) = bin_count az e).
  { apply select_length. unfold bin_mask. rewrite length_map. exact Hl. }
  split; [|split; [reflexivity|lia]].
  apply select_Forall. apply Forall_forall. auto.
Qed.

Lemma bin_mean_closed (P : F64.t -> Prop) az dd e :
  P zero -> P neg_zero -> (forall x y, P x -> P y -> P (add x y)) ->
  length dd = length az -> Forall P dd ->
  bin_mean az dd e = zero \/
  exists total n, P total /\ 0 < n /\ bin_mean az dd e = div total (of_Z n).
Proof.
  intros P0 Pn Padd Hl Hdd.
  destruct (bin_mean_cases az dd e Hl) as [->|(sel & Hsel & -> & Hn)]; [now left|right].
  exists (Np.sum sel), (Z.of_nat (length sel)). split; [|split; [lia|reflexivity]].
  apply sum_closed; auto.
  rewrite Forall_forall in *. auto.
Qed.

Lemma Forall_app_self {A} (P : A -> Prop) l : Forall P l -> Forall P (l ++ l).
Proof. intros H. apply Forall_app. tauto. Qed.

End Mean_facts.

Module Norm_facts.
Import F64 F64_facts F64_ops Np_facts Rose_facts Mean_facts.

(** *** Magnitudes stay non-negative *)

Lemma add_well_formed x y : well_formed (add x y).
Proof.
  destruct x as [|a|a j], y as [|b|b k]; cbn [add]; try exact I.
  - destruct (Bool.eqb a b); exact I.
  - destruct (Z.eqb_spec (sval a j + sval b k) 0) as [|Hz]; [cbn; lia|].
    destruct (round_nonneg (sval a j + sval b k <? 0) (Z.abs (sval a j + sval b k)) 1)
      as [->|(m & -> & Hm)]; try lia; [exact I|exact Hm].
Qed.

Lemma of_Z_well_formed z : well_formed (of_Z z).
Proof.
  unfold of_Z.
  destruct (round_nonneg (z <? 0) (Z.shiftl (Z.abs z) 1074) 1)
    as [->|(m & -> & Hm)]; try lia; [|exact I|exact Hm].
  apply Z.shiftl_nonneg. lia.
Qed.

Lemma div_well_formed x y : well_formed x -> well_formed y -> well_formed (div x y).
Proof.
  destruct x as [|a|a j], y as [|b|b k]; cbn [div well_formed]; try (intros; exact I).
  - intros _ _. lia.
  - intros Hj Hk. destruct (Z.eqb_spec k 0) as [|Hne].
    + destruct (j =? 0); exact I.
    + destruct (div_operands j k Hj ltac:(lia)) as (Hd & Hn & _). cbv zeta in *.
      destruct (round_nonneg (xorb a b) _ _ Hn Hd) as [->|(m & -> & Hm)];
        [exact I|exact Hm].
Qed.

Lemma mean_well_formed a : well_formed (Np.mean a).
Proof.
  unfold Np.mean, Np.sum.
  apply div_well_formed; [apply add_well_formed|apply of_Z_well_formed].
Qed.

Lemma bin_mean_well_formed az' dd e : well_formed (bin_mean az' dd e).
Proof.
  unfold bin_mean. destruct (0 <? _)%nat; [apply mean_well_formed|cbn; lia].
Qed.

(** *** Bounds on a quotient *)

Lemma Forall2_map_self {A B} (P : A -> B -> Prop) (f : A -> B) l :
  (forall x, In x l -> P x (f x)) -> Forall2 P l (map f l).
Proof.
  induction l as [|x l IH]; intros H; cbn [map]; constructor.
  - apply H. now left.
  - apply IH. intros y Hy. apply H. now right.
Qed.

Lemma Forall2_Forall_r {A B} (P : A -> Prop) (Q : B -> Prop) l l' :
  Forall2 (fun x y => P x -> Q y) l l' -> Forall P l -> Forall Q l'.
Proof.
  induction 1 as [|x y l l' Hxy _ IH]; intros HP; constructor;
    inversion HP; subst; auto.
Qed.

(** A finite value that compares [>= 0] is a zero or positive. *)
Lemma leb_zero_nonneg s k :
  well_formed (Fin s k) -> leb zero (Fin s k) = true -> nonneg (Fin s k).
Proof.
  cbn [well_formed leb zero sval]. intros Hk H. apply Z.leb_le in H.
  split; [exact Hk|]. intros ->. cbn [sval] in H. lia.
Qed.

(** Dividing a finite value by a larger positive one gives at most one. *)
Lemma div_below_one a j K :
  0 <= j -> 0 < K -> sval a j <= K ->
  leb (div (Fin a j) (Fin false K)) one = true.
Proof.
  intros Hj HK Hle. pose proof one_mag_pos as HU. rewrite one_eq.
  destruct a; cbn [sval] in Hle.
  - cbn [div]. destruct (Z.eqb_spec K 0); [lia|]. cbn [xorb].
    destruct (div_operands j K Hj HK) as (Hd & Hn & _). cbv zeta in *.
    destruct (round_nonneg true _ _ Hn Hd) as [->|(mag & -> & Hm)]; [reflexivity|].
    cbn [leb sval]. apply Z.leb_le. lia.
  - destruct (div_le_one false j K) as (mag & -> & Hmag & _); try assumption.
    { split; [exact Hj|discriminate]. }
    cbn [leb sval]. apply Z.leb_le. lia.
Qed.

End Norm_facts.

(** ** The model against the hardware floats *)

(** The rounding steps that decide the edge cases below, replayed on Rocq's
    primitive binary64 numbers: the model and the hardware agree, and the
    decimal literals parse to the floats named here. *)
Example native_half_turn :
  (0x1.67fffffffffffp+7 + 180 = 360)%float /\
  Py.float "179.99999999999997" = Some (F64_native.of_prim 0x1.67fffffffffffp+7) /\
  F64_native.to_prim
    (F64.add (F64_native.of_prim 0x1.67fffffffffffp+7) (F64.of_Z 180)) = 360%float.
Proof. repeat split; vm_compute; reflexivity. Qed.

Example native_bin_edge :
  (0x1.3ffffffffffffp+3 + 180 = 190)%float /\
  Py.float "9.999999999999998" = Some (F64_native.of_prim 0x1.3ffffffffffffp+3) /\
  F64_native.to_prim
    (F64.add (F64_native.of_prim 0x1.3ffffffffffffp+3) (F64.of_Z 180)) = 190%float.
Proof. repeat split; vm_compute; reflexivity. Qed.

Example native_wrap :
  (-0x1.1800000000001p+6 + 360 = 290)%float /\
  (-0x1.1800000000001p+6 + 180 = 0x1.b7fffffffffffp+6)%float /\
  Py.float "-70.00000000000001" = Some (F64_native.of_prim (-0x1.1800000000001p+6)) /\
  Py.float "109.99999999999999" = Some (F64_native.of_prim 0x1.b7fffffffffffp+6) /\
  F64_native.to_prim
    (Np.remainder (F64_native.of_prim (-0x1.1800000000001p+6)) (F64.of_Z 360)) = 290%float.
Proof. repeat split; vm_compute; reflexivity. Qed.

Example native_mean :
  (1250 / 25 = 50)%float /\ (-1150 / 25 = -46)%float /\ (50 / 50 = 1)%float /\
  F64_native.to_prim (Np.mean (repeat (F64.of_Z 50) 25)) = 50%float /\
  F64_native.to_prim (Np.mean (F64.of_Z 50 :: repeat (F64.of_Z (-50)) 24)) = (-46)%float.
Proof. repeat split; vm_compute; reflexivity. Qed.

(** A table of operand pairs (ordinary values, ties, subnormals, overflow,
    zeros of both signs, infinities): on each, the model's sum, quotient and
    comparisons are the hardware's. *)
Example native_agreement :
  forallb
    (fun p =>
       let '(x, y) := p in
       let a := F64_native.of_prim x in
       let b := F64_native.of_prim y in
       F64_native.same (F64_native.to_prim (F64.add a b)) (x + y)%float &&
       F64_native.same (F64_native.to_prim (F64.div a b)) (x / y)%float &&
       Bool.eqb (F64.ltb a b) (x <? y)%float &&
       Bool.eqb (F64.leb a b) (x <=? y)%float &&
       Bool.eqb (F64.eqb a b) (x =? y)%float)
    [(0.5, 0.25); (1, 3); (0x1p+53, 1); (0x1.fffffffffffffp+52, 0.5);
     (0x1p-1074, 2); (0x3p-1074, 2); (0x1p-1074, 25); (0x1p-1022, 0x1p-1074);
     (0x1.fffffffffffffp+1023, 0x1p+970); (0x1.fffffffffffffp+1023, 0x1p+969);
     (0x1.fffffffffffffp+1023, 0.5); (1250, 25); (-1150, 25); (7, -3);
     (0, -0); (-0, -0); (0, 0); (5, 0); (-5, 0); (0, 5);
     (infinity, 1); (1, infinity); (infinity, neg_infinity); (infinity, infinity);
     (nan, 1); (1, nan); (0x1.67fffffffffffp+7, 180); (0x1.3ffffffffffffp+3, 180);
     (-0x1.1800000000001p+6, 360); (0x1.999999999999ap-4, 0x1.999999999999ap-3)]%float
  = true.
Proof. vm_compute. reflexivity. Qed.

(** ** The claims *)

Import F64 F64_facts F64_ops Np_facts Rose_facts Bin_facts Mean_facts.
Import Text_facts Validate_facts.

(** C1, as stated, fails: in scenario A the bins centred at 5 and 185
    degrees are empty (count 0, mean dip 0), not filled with 25 samples. *)
Lemma scenario_A_bin_5_is_empty :
  validate scenario_A_strikes scenario_A_dips = [] /\
  exists fig,
    generate_rose_diagram scenario_A_strikes scenario_A_dips = Ok fig /\
    bin_row fig 0 = (F64.of_Z 5, 0%nat, F64.zero, F64.zero) /\
    bin_row fig 18 = (F64.of_Z 185, 0%nat, F64.zero, F64.zero).
Proof.
  split; [reflexivity|].
  eexists; split; [vm_compute; reflexivity|].
  split; vm_compute; reflexivity.
Qed.

(** C1, amended: scenario A passes validation and fills the bins centred at
    15 and 195 degrees (bins 1 and 19), each with count 25, mean dip 50 and
    normalised dip 1.0; every other bin has count 0, mean dip 0 and
    normalised dip 0.  A strike of exactly 10 lies on the edge between the
    first two bins and belongs to the bin that starts there. *)
Theorem scenario_A :
  validate scenario_A_strikes scenario_A_dips = [] /\
  generate_rose_diagram scenario_A_strikes scenario_A_dips =
    Ok (mkRose (centers_of bins)
               (at_bins [1; 19]%nat 25%nat 0%nat)
               (at_bins [1; 19]%nat (F64.of_Z 50) F64.zero)
               (at_bins [1; 19]%nat one F64.zero)) /\
  nth 1 (centers_of bins) F64.NaN = F64.of_Z 15 /\
  nth 19 (centers_of bins) F64.NaN = F64.of_Z 195.
Proof.
  split; [reflexivity|].
  split; [|split]; vm_compute; reflexivity.
Qed.

(** C2, evaluated where it fails: 25 strikes of 179.99999999999997 with 25
    dips of 50 pass validation, yet the counts add up to 25, not to 50.
    Each azimuth plus 180 rounds to exactly 360.0, which lies outside the
    last bin [[350, 360)].  A strike that parses to NaN is counted nowhere
    at all.  On whole-number strikes the total is [2 * N]
    ([Whole_strikes.whole_count_conservation]). *)
Theorem count_conservation_fails :
  (exists fig,
     on_generate (lines "179.99999999999997" 25) (lines "50" 25) = Rendered fig /\
     counts fig = at_bins [17]%nat 25%nat 0%nat /\
     total_count fig = 25%nat) /\
  (exists fig,
     on_generate (lines "nan" 25) (lines "50" 25) = Rendered fig /\
     total_count fig = 0%nat).
Proof.
  split; eexists; (split; [vm_compute; reflexivity|]).
  - split; vm_compute; reflexivity.
  - vm_compute; reflexivity.
Qed.

(** C3: an azimuth in [[0, 360)] lies in exactly one of the 36 bins; a value
    on a bin edge lies in the bin that starts there and in no other, because
    the test is [lo <= az < hi]; and for as many dips as strikes the function
    returns a figure whose counts are the numbers of doubled azimuths in each
    bin, so their total is the number of doubled azimuths inside
    [[0, 360)]. *)
Theorem every_azimuth_in_one_bin :
  (forall v, in_range v = true ->
     exists i, (i < 36)%nat /\
       forall j, (j < 36)%nat -> (in_bin (edge j) (edge (S j)) v = true <-> j = i)) /\
  (forall i, (i < 36)%nat ->
     in_bin (edge i) (edge (S i)) (edge i) = true /\
     in_bin (edge i) (edge (S i)) (edge (S i)) = false /\
     forall j, (j < 36)%nat -> j <> i -> in_bin (edge j) (edge (S j)) (edge i) = false) /\
  (forall strikes dips,
     length strikes = length dips ->
     exists fig,
       generate_rose_diagram strikes dips = Ok fig /\
       counts fig =
         map (fun i => length (filter (in_bin (edge i) (edge (S i))) (az_full strikes)))
             (seq 0 36) /\
       total_count fig = length (filter in_range (az_full strikes))).
Proof.
  split; [exact bin_index|]. split.
  - intros i Hi. pose proof one_mag_pos as HU.
    assert (Hself : in_bin (edge i) (edge (S i)) (edge i) = true).
    { rewrite (edge_eq i) at 2 by lia. rewrite in_bin_edge_fin by assumption.
      cbn [sval]. apply andb_true_intro.
      split; [apply Z.leb_le|apply Z.ltb_lt]; lia. }
    split; [exact Hself|]. split.
    + rewrite (edge_eq (S i)) at 2 by lia. rewrite in_bin_edge_fin by assumption.
      cbn [sval]. rewrite Z.ltb_irrefl. apply andb_false_r.
    + intros j Hj Hne.
      destruct (in_bin (edge j) (edge (S j)) (edge i)) eqn:E; [|reflexivity].
      exfalso. apply Hne.
      destruct (bin_index (edge i)) as (i' & _ & Hu).
      { now apply (in_bin_in_range i). }
      apply Hu in E; [|assumption]. apply Hu in Hself; [|assumption]. congruence.
  - intros strikes dips Hl.
    pose proof (generate_ok strikes dips Hl) as H.
    eexists. split; [exact H|].
    pose proof (generate_counts _ _ _ H) as Hc.
    split.
    + rewrite Hc. apply bin_counts_eq.
    + unfold total_count. rewrite Hc. apply total_in_range.
Qed.

Lemma every_azimuth_in_one_bin_witness :
  (in_range (F64.of_Z 10) = true /\
   exists i, (i < 36)%nat /\
     forall j, (j < 36)%nat ->
       (in_bin (edge j) (edge (S j)) (F64.of_Z 10) = true <-> j = i)) /\
  (length scenario_A_strikes = length scenario_A_dips /\
   exists fig,
     generate_rose_diagram scenario_A_strikes scenario_A_dips = Ok fig /\
     counts fig =
       map (fun i => length (filter (in_bin (edge i) (edge (S i)))
                                    (az_full scenario_A_strikes)))
           (seq 0 36) /\
     total_count fig = length (filter in_range (az_full scenario_A_strikes))).
Proof.
  split.
  - split; [vm_compute; reflexivity|].
    apply (proj1 every_azimuth_in_one_bin). vm_compute; reflexivity.
  - split; [reflexivity|].
    apply (proj2 (proj2 every_azimuth_in_one_bin)). reflexivity.
Defined.

(** C4, as stated, fails.  With 24 dips of -50 and one of 50 on a single
    strike the bin mean is -46: the largest mean is 0, nothing is divided,
    the normalised dip of the bin is -46 < 0 and no bin reaches 1 although
    a dip is positive.  A positive dip also goes unseen when its strike is
    NaN and so falls in no bin, or when the mean underflows: 24 dips of 0
    and one of 5e-324 have mean 0.  And 25 dips of 1e308 overflow the sum:
    the bin mean is infinite and its normalised dip, infinity over infinity,
    is NaN, which is neither [>= 0] nor [<= 1]. *)
Lemma normalization_bound_fails :
  (exists fig,
     on_generate (lines "10" 25) (lines "-50" 24 ++ ",50") = Rendered fig /\
     nth 1 (dip_norm fig) F64.NaN = F64.of_Z (-46) /\
     F64.ltb (nth 1 (dip_norm fig) F64.NaN) F64.zero = true /\
     forallb (fun x => negb (F64.eqb x one)) (dip_norm fig) = true) /\
  (exists fig,
     on_generate (lines "10" 24 ++ ",nan") (lines "0" 24 ++ ",50") = Rendered fig /\
     forallb (fun x => negb (F64.eqb x one)) (dip_norm fig) = true) /\
  (exists fig,
     on_generate (lines "10" 25) (lines "0" 24 ++ ",5e-324") = Rendered fig /\
     forallb (fun m => F64.eqb m F64.zero) (dip_means fig) = true /\
     forallb (fun x => negb (F64.eqb x one)) (dip_norm fig) = true) /\
  (exists fig,
     on_generate (lines "10" 25) (lines "1e308" 25) = Rendered fig /\
     nth 1 (dip_means fig) F64.NaN = F64.Inf false /\
     nth 1 (dip_norm fig) F64.zero = F64.NaN /\
     F64.leb F64.zero (nth 1 (dip_norm fig) F64.zero) = false).
Proof.
  split; [|split; [|split]]; eexists; (split; [vm_compute; reflexivity|]).
  - split; [|split]; vm_compute; reflexivity.
  - vm_compute; reflexivity.
  - split; vm_compute; reflexivity.
  - split; [|split]; vm_compute; reflexivity.
Qed.

(** C4, amended: for every validated input whose bin means are all finite
    (no sum overflows, no NaN), whatever the dips, every bin has
    [normalized_dip <= 1]; a bin whose mean dip is [>= 0] has
    [normalized_dip >= 0], which is every bin when no dip is negative; and
    whenever some bin has a positive mean dip, some bin has
    [normalized_dip == 1]. *)
Theorem normalization_bound strikes dips :
  validate strikes dips = [] ->
  exists fig,
    generate_rose_diagram strikes dips = Ok fig /\
    (Forall (fun m => F64.is_finite m = true) (dip_means fig) ->
     Forall (fun x => F64.leb x one = true) (dip_norm fig) /\
     Forall2 (fun m x => F64.leb F64.zero m = true -> F64.leb F64.zero x = true)
             (dip_means fig) (dip_norm fig) /\
     (Forall nonneg dips ->
      Forall (fun x => F64.leb F64.zero x = true) (dip_norm fig)) /\
     (Exists (fun m => F64.ltb F64.zero m = true) (dip_means fig) ->
      Exists (fun x => F64.eqb x one = true) (dip_norm fig))).
Proof.
  intros Hv. apply validate_nil in Hv as [_ Hl].
  rewrite (generate_ok _ _ Hl). eexists; split; [reflexivity|]. cbn [dip_means dip_norm].
  set (az := az_full strikes). set (dd := dips ++ dips).
  set (means := map (bin_mean az dd) edges).
  intros Hfin.
  assert (Hwf : Forall well_formed means).
  { apply Forall_forall. intros m Hm. apply in_map_iff in Hm as (e & <- & _).
    apply Norm_facts.bin_mean_well_formed. }
  destruct (max_finite means) as (Hin & Hmf & Hle).
  { subst means. rewrite edges_eq. discriminate. }
  { exact Hfin. }
  pose proof one_mag_pos as HU.
  assert (Hmaxwf : well_formed (Np.max means)) by (rewrite Forall_forall in Hwf; auto).
  (* the lower bound, bin by bin *)
  assert (Hlow : Forall2 (fun m x => leb zero m = true -> leb zero x = true)
                         means (normalize means)).
  { unfold normalize. destruct (ltb zero (Np.max means)) eqn:Epos.
    - apply Norm_facts.Forall2_map_self. intros m Hm Hm0.
      rewrite Forall_forall in Hfin, Hwf, Hle.
      pose proof (Hfin _ Hm) as Hf. pose proof (Hwf _ Hm) as Hw. pose proof (Hle _ Hm) as Hl'.
      destruct m as [| |a j]; try discriminate.
      pose proof (Norm_facts.leb_zero_nonneg a j Hw Hm0) as Hn.
      destruct (Np.max means) as [| |sK K]; try discriminate.
      cbn [ltb zero sval] in Epos. apply Z.ltb_lt in Epos.
      cbn [well_formed] in Hmaxwf.
      destruct sK; cbn [sval] in Epos; [lia|].
      cbn [leb] in Hl'. rewrite (sval_nonneg _ _ Hn) in Hl'. cbn [sval] in Hl'.
      apply Z.leb_le in Hl'.
      destruct (div_le_one a j K Hn Epos Hl') as (mag & -> & Hmag & Ha).
      cbn [leb zero sval]. apply Z.leb_le.
      destruct a; cbn [sval]; [rewrite Ha by reflexivity|]; lia.
    - clear. induction means; constructor; auto. }
  split; [|split; [exact Hlow|split]].
  - (* the upper bound *)
    unfold normalize. destruct (ltb zero (Np.max means)) eqn:Epos.
    + apply Forall_forall. intros x Hx. apply in_map_iff in Hx as (m & <- & Hm).
      rewrite Forall_forall in Hfin, Hwf, Hle.
      pose proof (Hfin _ Hm) as Hf. pose proof (Hwf _ Hm) as Hw. pose proof (Hle _ Hm) as Hl'.
      destruct m as [| |a j]; try discriminate.
      destruct (Np.max means) as [| |sK K]; try discriminate.
      cbn [ltb zero sval] in Epos. apply Z.ltb_lt in Epos.
      cbn [well_formed] in Hmaxwf, Hw.
      destruct sK; cbn [sval] in Epos; [lia|].
      cbn [leb sval] in Hl'. apply Z.leb_le in Hl'.
      now apply Norm_facts.div_below_one.
    + apply Forall_forall. intros m Hm.
      rewrite Forall_forall in Hfin, Hle.
      pose proof (Hfin _ Hm) as Hf. pose proof (Hle _ Hm) as Hl'.
      destruct m as [| |a j]; try discriminate.
      destruct (Np.max means) as [| |sK K]; try discriminate.
      cbn [ltb zero] in Epos. apply Z.ltb_ge in Epos.
      cbn [leb] in Hl'. apply Z.leb_le in Hl'.
      rewrite one_eq. cbn [leb]. apply Z.leb_le.
      change (sval false 0) with 0 in Epos. change (sval false one_mag) with one_mag. lia.
  - (* no negative dip: every bin mean is [>= 0] *)
    intros Hd. apply (Norm_facts.Forall2_Forall_r _ _ _ _ Hlow).
    apply Forall_forall. intros m Hm.
    assert (Hmf' : is_finite m = true) by (rewrite Forall_forall in Hfin; auto).
    apply in_map_iff in Hm as (e & <- & _). apply nonneg_leb.
    destruct (bin_mean_closed nonneg az dd e) as [E|(total & n & Ht & Hn & E)].
    + cbn. split; [lia|discriminate].
    + cbn. split; [lia|reflexivity].
    + apply add_nonneg.
    + subst az dd. rewrite length_app, az_full_length. lia.
    + subst dd. apply Forall_app_self. exact Hd.
    + rewrite E. cbn. split; [lia|discriminate].
    + rewrite E in *. apply div_finite_nonneg; [assumption|now apply of_Z_positive|assumption].
  - (* a positive mean: the largest mean is divided by itself *)
    intros Hex. apply Exists_exists in Hex as (m & Hm & Hpos).
    assert (Epos : ltb zero (Np.max means) = true).
    { rewrite Forall_forall in Hfin, Hle.
      pose proof (Hfin _ Hm) as Hf. pose proof (Hle _ Hm) as Hl'.
      destruct m as [| |a j]; try discriminate.
      destruct (Np.max means) as [| |sK K]; try discriminate.
      cbn [ltb leb zero] in *. apply Z.leb_le in Hl'. apply Z.ltb_lt in Hpos.
      apply Z.ltb_lt. lia. }
    unfold normalize. rewrite Epos.
    destruct (Np.max means) as [| |sK K] eqn:Emax; try discriminate.
    cbn [ltb zero sval] in Epos. apply Z.ltb_lt in Epos.
    cbn [well_formed] in Hmaxwf.
    destruct sK; cbn [sval] in Epos; [lia|].
    apply Exists_exists. exists (div (Fin false K) (Fin false K)).
    split; [exact (in_map (fun m => div m (Fin false K)) _ _ Hin)|].
    rewrite div_self by assumption. rewrite one_eq. unfold eqb. cbn [leb sval].
    rewrite Z.leb_refl. reflexivity.
Qed.

Lemma normalization_bound_witness :
  validate scenario_A_strikes scenario_A_dips = [] /\
  exists fig,
    generate_rose_diagram scenario_A_strikes scenario_A_dips = Ok fig /\
    forallb F64.is_finite (dip_means fig) = true /\
    existsb (F64.ltb F64.zero) (dip_means fig) = true /\
    Forall nonneg scenario_A_dips /\
    Forall (fun x => F64.leb x one = true) (dip_norm fig) /\
    Forall (fun x => F64.leb F64.zero x = true) (dip_norm fig) /\
    Exists (fun x => F64.eqb x one = true) (dip_norm fig).
Proof.
  split; [reflexivity|].
  destruct (normalization_bound scenario_A_strikes scenario_A_dips eq_refl)
    as (fig & Hfig & H).
  assert (Hfin : forallb F64.is_finite (dip_means fig) = true).
  { revert Hfig. vm_compute. intros Hfig. injection Hfig as <-. reflexivity. }
  assert (Hpos : existsb (F64.ltb F64.zero) (dip_means fig) = true).
  { revert Hfig. vm_compute. intros Hfig. injection Hfig as <-. reflexivity. }
  assert (Hd : Forall nonneg scenario_A_dips).
  { apply Forall_forall. intros d Hd. apply repeat_spec in Hd. subst d.
    vm_compute. split; intro; discriminate. }
  destruct H as (Hup & _ & Hlow & Hone).
  { apply Forall_forall. exact (proj1 (forallb_forall _ _) Hfin). }
  exists fig. split; [exact Hfig|]. split; [exact Hfin|]. split; [exact Hpos|].
  split; [exact Hd|]. split; [exact Hup|]. split; [exact (Hlow Hd)|].
  apply Hone. apply existsb_exists in Hpos as (m & Hm & Hm0).
  apply Exists_exists. eauto.
Defined.

(** C5, as stated, fails.  The token [1 0] is not a number once the blanks
    around it are stripped, yet [parse_input] deletes the inner space and
    returns 10.0; and a token that is not a number ends the run in an
    uncaught [ValueError] that names the token, not the field, with no
    error message of the application. *)
Lemma parse_error_claim_fails :
  spec_tokens "1 0" = ["1 0"%string] /\
  Py.float "1 0" = None /\
  parse_input "1 0" = Ok [F64.of_Z 10] /\
  on_generate "abc" (lines "50" 25) = Uncaught (ValueError "abc") /\
  on_generate (lines "10" 25) "abc" = Uncaught (ValueError "abc").
Proof. repeat split; vm_compute; reflexivity. Qed.

(** C5, amended: for every raw text field, [parse_input] deletes every
    space character (also one inside a token), cuts the rest at commas and
    newlines, strips the remaining blanks around each piece, drops the empty
    pieces and converts the others with [float], in order.  A piece that
    [float] rejects raises a [ValueError] carrying that piece; the handler
    does not catch it, so the run ends there, before validation, whichever
    field it came from. *)
Theorem parse_input_refines :
  (forall text,
     parse_input text =
       traverse float_or_raise (spec_tokens (Py.replace " " "" text))) /\
  (forall text values,
     parse_input text = Ok values ->
     Forall2 (fun token v => Py.float token = Some v)
             (spec_tokens (Py.replace " " "" text)) values) /\
  (forall text e,
     parse_input text = Raise e ->
     exists token,
       e = ValueError token /\ Py.float token = None /\
       In token (spec_tokens (Py.replace " " "" text))) /\
  (forall strike_input dip_input e,
     parse_input strike_input = Raise e ->
     on_generate strike_input dip_input = Uncaught e) /\
  (forall strike_input dip_input strikes e,
     parse_input strike_input = Ok strikes ->
     parse_input dip_input = Raise e ->
     on_generate strike_input dip_input = Uncaught e).
Proof.
  split; [exact parse_input_tokens|]. split; [|split; [|split]].
  - intros text values H. rewrite parse_input_tokens in H.
    apply traverse_ok in H. eapply Forall2_impl; [|exact H].
    intros token v. unfold float_or_raise.
    destruct (Py.float token); congruence.
  - intros text e H. rewrite parse_input_tokens in H.
    apply traverse_raise in H as (token & Hin & Hf).
    exists token. unfold float_or_raise in Hf.
    destruct (Py.float token) eqn:E; [discriminate|].
    injection Hf as <-. auto.
  - intros s d e H. unfold on_generate. rewrite H. reflexivity.
  - intros s d strikes e Hs Hd. unfold on_generate. rewrite Hs, Hd. reflexivity.
Qed.

Lemma parse_input_refines_witness :
  parse_input "abc" = Raise (ValueError "abc") /\
  on_generate "abc" "50" = Uncaught (ValueError "abc").
Proof.
  assert (H : parse_input "abc" = Raise (ValueError "abc")) by (vm_compute; reflexivity).
  split; [exact H|].
  exact (proj1 (proj2 (proj2 (proj2 parse_input_refines))) "abc"%string "50"%string _ H).
Defined.

(** C6: with 10 strikes and 30 dips the validator returns exactly two
    errors, the minimum-sample error for strike with the count 10 and the
    length-mismatch error with both counts, and the handler shows both. *)
Theorem validator_reports_both (strikes dips : list F64.t) :
  length strikes = 10%nat -> length dips = 30%nat ->
  validate strikes dips =
    ["❌ Data strike minimal 25, saat ini hanya 10 data"%string;
     "❌ Jumlah data strike (10) dan dip (30) harus sama"%string] /\
  validate strikes dips = [strike_too_few 10; length_mismatch 10 30] /\
  forall strike_input dip_input,
    parse_input strike_input = Ok strikes ->
    parse_input dip_input = Ok dips ->
    on_generate strike_input dip_input =
      Rejected [strike_too_few 10; length_mismatch 10 30].
Proof.
  intros Hs Hd.
  assert (E : validate strikes dips = [strike_too_few 10; length_mismatch 10 30]).
  { unfold validate. rewrite Hs, Hd. reflexivity. }
  split; [rewrite E; reflexivity|]. split; [exact E|].
  intros s d Ps Pd. unfold on_generate. rewrite Ps, Pd, E. reflexivity.
Qed.

Lemma validator_reports_both_witness :
  length (repeat F64.zero 10) = 10%nat /\ length (repeat F64.zero 30) = 30%nat /\
  validate (repeat F64.zero 10) (repeat F64.zero 30) =
    [strike_too_few 10; length_mismatch 10 30].
Proof.
  split; [reflexivity|]. split; [reflexivity|].
  apply (validator_reports_both (repeat F64.zero 10) (repeat F64.zero 30)); reflexivity.
Defined.

(** C7, evaluated where it fails: the strike -70.00000000000001 and the
    strike 109.99999999999999, which is that strike plus 180 exactly, give
    different figures for the same dips.  Wrapping the negative strike adds
    360 and rounds to exactly 290.0, whose fold is exactly 110, in bin
    [[110, 120)]; the other strike stays below 110, in bin [[100, 110)].
    On whole-number strikes the figure depends on each strike modulo 180
    only ([Whole_strikes.whole_axial_fold]). *)
Theorem axial_fold_fails :
  (exists a b,
     Py.float "-70.00000000000001" = Some (F64.Fin true a) /\
     Py.float "109.99999999999999" = Some (F64.Fin false b) /\
     b = - a + 180 * F64.one_mag) /\
  (exists fig,
     on_generate (lines "-70.00000000000001" 25) (lines "50" 25) = Rendered fig /\
     counts fig = at_bins [11; 29]%nat 25%nat 0%nat) /\
  (exists fig,
     on_generate (lines "109.99999999999999" 25) (lines "50" 25) = Rendered fig /\
     counts fig = at_bins [10; 29]%nat 25%nat 0%nat).
Proof.
  split; [|split].
  - do 2 eexists. split; [vm_compute; reflexivity|].
    split; vm_compute; reflexivity.
  - eexists; split; vm_compute; reflexivity.
  - eexists; split; vm_compute; reflexivity.
Qed.

(** Scenario D: a strike of 370 and a strike of 10 give the same figure. *)
Lemma scenario_D :
  generate_rose_diagram (repeat (F64.of_Z 370) 25) scenario_A_dips =
  generate_rose_diagram scenario_A_strikes scenario_A_dips.
Proof. vm_compute. reflexivity. Qed.

(** C8: if every dip of a validated input is zero, every bin has mean dip 0
    and normalised dip 0, the largest mean is not above zero, and the
    normalisation returns the means unchanged: nothing is divided. *)
Theorem zero_dips_safe strikes dips :
  validate strikes dips = [] ->
  Forall (fun d => F64.eqb d F64.zero = true) dips ->
  exists fig,
    generate_rose_diagram strikes dips = Ok fig /\
    Forall (fun m => F64.eqb m F64.zero = true) (dip_means fig) /\
    Forall (fun x => F64.eqb x F64.zero = true) (dip_norm fig) /\
    F64.ltb F64.zero (Np.max (dip_means fig)) = false /\
    normalize (dip_means fig) = dip_means fig /\
    dip_norm fig = dip_means fig.
Proof.
  intros Hv Hd. apply validate_nil in Hv as [_ Hl].
  rewrite (generate_ok _ _ Hl). eexists; split; [reflexivity|]. cbn [dip_means dip_norm].
  set (az := az_full strikes). set (dd := dips ++ dips).
  assert (Hmeans : Forall zeroish (map (bin_mean az dd) edges)).
  { apply Forall_forall. intros m Hm. apply in_map_iff in Hm as (e & <- & _).
    destruct (bin_mean_closed zeroish az dd e) as [->|(total & n & Ht & Hn & ->)].
    - exists false; reflexivity.
    - exists true; reflexivity.
    - apply add_zeroish.
    - subst az dd. rewrite length_app, az_full_length. lia.
    - subst dd. apply Forall_app_self. eapply Forall_impl; [|exact Hd].
      intros d. apply zeroish_eqb.
    - exists false; reflexivity.
    - apply div_zeroish; [assumption|now apply of_Z_positive]. }
  assert (Hmax : ltb zero (Np.max (map (bin_mean az dd) edges)) = false).
  { destruct (max_finite (map (bin_mean az dd) edges)) as (Hin & _ & _).
    - rewrite edges_eq. discriminate.
    - eapply Forall_impl; [|exact Hmeans]. intros x [s ->]. reflexivity.
    - rewrite Forall_forall in Hmeans. destruct (Hmeans _ Hin) as [s ->].
      destruct s; reflexivity. }
  assert (Hnorm : normalize (map (bin_mean az dd) edges) = map (bin_mean az dd) edges).
  { unfold normalize. rewrite Hmax. reflexivity. }
  rewrite Hnorm.
  assert (Forall (fun m => eqb m zero = true) (map (bin_mean az dd) edges)).
  { eapply Forall_impl; [|exact Hmeans]. intros m. apply zeroish_eqb. }
  tauto.
Qed.

Lemma zero_dips_safe_witness :
  validate scenario_A_strikes (repeat F64.zero 25) = [] /\
  Forall (fun d => F64.eqb d F64.zero = true) (repeat F64.zero 25) /\
  exists fig,
    generate_rose_diagram scenario_A_strikes (repeat F64.zero 25) = Ok fig /\
    Forall (fun m => F64.eqb m F64.zero = true) (dip_means fig) /\
    Forall (fun x => F64.eqb x F64.zero = true) (dip_norm fig) /\
    F64.ltb F64.zero (Np.max (dip_means fig)) = false /\
    normalize (dip_means fig) = dip_means fig /\
    dip_norm fig = dip_means fig.
Proof.
  assert (Hd : Forall (fun d => F64.eqb d F64.zero = true) (repeat F64.zero 25)).
  { apply Forall_forall. intros d Hd. apply repeat_spec in Hd. subst d. reflexivity. }
  split; [reflexivity|]. split; [exact Hd|].
  apply (zero_dips_safe scenario_A_strikes (repeat F64.zero 25)); [reflexivity|exact Hd].
Defined.

(** C9, evaluated where it fails: 25 strikes of 9.999999999999998 put 25
    samples in bin 0, [[0, 10)], but none in bin 18, [[180, 190)]: each
    azimuth plus 180 rounds to exactly 190.0 and is counted in bin 19.
    On whole-number strikes bin [i] and bin [i + 18] agree
    ([Whole_strikes.whole_point_symmetry]). *)
Theorem point_symmetry_fails :
  exists fig,
    on_generate (lines "9.999999999999998" 25) (lines "50" 25) = Rendered fig /\
    bin_row fig 0 = (F64.of_Z 5, 25%nat, F64.of_Z 50, one) /\
    bin_row fig 18 = (F64.of_Z 185, 0%nat, F64.zero, F64.zero) /\
    bin_row fig 19 = (F64.of_Z 195, 25%nat, F64.of_Z 50, one).
Proof.
  eexists; split; [vm_compute; reflexivity|].
  split; [|split]; vm_compute; reflexivity.
Qed.

(** C10: an empty field gets the must-not-be-empty error and never a
    minimum-sample error, for strike and for dip alike, and the
    length-mismatch error is reported exactly when the two lengths differ,
    whatever the two fields hold. *)
Theorem empty_excludes_min_sample (strikes dips : list F64.t) :
  (strikes = [] ->
     In strike_empty (validate strikes dips) /\
     forall n, ~ In (strike_too_few n) (validate strikes dips)) /\
  (dips = [] ->
     In dip_empty (validate strikes dips) /\
     forall n, ~ In (dip_too_few n) (validate strikes dips)) /\
  (In (length_mismatch (length strikes) (length dips)) (validate strikes dips) <->
   length strikes <> length dips).
Proof.
  assert (Hparts : forall x, In x (validate strikes dips) <->
            ((x = strike_empty /\ length strikes = 0%nat) \/
             (x = strike_too_few (length strikes) /\
              length strikes <> 0%nat /\ (length strikes < min_samples)%nat)) \/
            ((x = dip_empty /\ length dips = 0%nat) \/
             (x = dip_too_few (length dips) /\
              length dips <> 0%nat /\ (length dips < min_samples)%nat)) \/
            (x = length_mismatch (length strikes) (length dips) /\
             length strikes <> length dips)).
  { intros x. unfold validate.
    destruct (Nat.eqb_spec (length strikes) 0) as [Es|Es],
             (Nat.ltb_spec (length strikes) min_samples) as [Ls|Ls],
             (Nat.eqb_spec (length dips) 0) as [Ed|Ed],
             (Nat.ltb_spec (length dips) min_samples) as [Ld|Ld],
             (Nat.eqb_spec (length strikes) (length dips)) as [El|El];
      cbn [negb app In]; unfold min_samples in *;
      intuition (subst; try lia; try congruence; auto). }
  split; [|split].
  - intros ->. split.
    + apply Hparts. left. left. split; reflexivity.
    + intros n H. apply Hparts in H. cbn [length] in H.
      destruct (strike_too_few_other n) as (A & B & C & D).
      intuition (try congruence; try (now eapply C); try (now eapply D)).
  - intros ->. split.
    + apply Hparts. right. left. left. split; reflexivity.
    + intros n H. apply Hparts in H. cbn [length] in H.
      destruct (dip_too_few_other n) as (A & B & C & D).
      intuition (try congruence; try (now eapply C); try (now eapply D)).
  - rewrite Hparts.
    destruct (length_mismatch_other (length strikes) (length dips)) as (A & B & C & D).
    intuition (try congruence; try (now eapply C); try (now eapply D)).
Qed.

Lemma empty_excludes_min_sample_witness :
  In strike_empty (validate [] (repeat F64.zero 30)) /\
  forall n, ~ In (strike_too_few n) (validate [] (repeat F64.zero 30)).
Proof.
  exact (proj1 (empty_excludes_min_sample [] (repeat F64.zero 30)) eq_refl).
Defined.

(** * Further properties of the code *)

Module Text_more.
Import Text_facts.

Lemma split_any_nonempty s : split_any s <> [].
Proof.
  destruct s as [|c s]; cbn [split_any]; [discriminate|].
  destruct (_ || _)%bool; [discriminate|].
  destruct (split_any s); discriminate.
Qed.

Lemma split_any_app a sep b :
  sep = ","%char \/ sep = newline ->
  split_any (a ++ String sep b) = split_any a ++ split_any b.
Proof.
  intros Hsep. induction a as [|c a IH].
  - cbn [append split_any app].
    destruct Hsep as [->| ->]; [reflexivity|].
    rewrite Ascii.eqb_refl, orb_true_r. reflexivity.
  - cbn [append split_any]. rewrite IH.
    destruct (Ascii.eqb c "," || Ascii.eqb c newline)%bool; [reflexivity|].
    pose proof (split_any_nonempty a).
    destruct (split_any a) as [|p r]; [congruence|reflexivity].
Qed.

Lemma string_app_assoc (a b c : string) : (a ++ (b ++ c) = (a ++ b) ++ c)%string.
Proof. induction a as [|x a IH]; cbn [append]; [reflexivity|now rewrite IH]. Qed.

Lemma replace_app old new a b :
  Py.replace old new (a ++ b) = (Py.replace old new a ++ Py.replace old new b)%string.
Proof.
  induction a as [|c a IH]; [reflexivity|].
  cbn [append Py.replace]. rewrite IH.
  destruct (Ascii.eqb c old); [|reflexivity].
  apply string_app_assoc.
Qed.

Lemma spec_tokens_app a sep b :
  sep = ","%char \/ sep = newline ->
  spec_tokens (a ++ String sep b) = spec_tokens a ++ spec_tokens b.
Proof.
  intros Hsep. unfold spec_tokens.
  now rewrite split_any_app, map_app, filter_app.
Qed.

Lemma traverse_app {A B} (f : A -> result B) l l' :
  traverse f (l ++ l') =
    (xs <- traverse f l ;; ys <- traverse f l' ;; Ok (xs ++ ys)).
Proof.
  induction l as [|x l IH]; cbn [app traverse bind].
  - destruct (traverse f l'); reflexivity.
  - destruct (f x) as [y|e]; cbn [bind]; [|reflexivity].
    rewrite IH. destruct (traverse f l) as [ys|e]; cbn [bind]; [|reflexivity].
    destruct (traverse f l'); reflexivity.
Qed.

Lemma replace_space_idem s :
  Py.replace " " "" (Py.replace " " "" s) = Py.replace " " "" s.
Proof.
  induction s as [|c s IH]; [reflexivity|].
  cbn [Py.replace]. destruct (Ascii.eqb c " ") eqn:E; cbn [append]; [exact IH|].
  cbn [Py.replace]. rewrite E, IH. reflexivity.
Qed.

Lemma split_any_newline s : split_any (Py.replace newline "," s) = split_any s.
Proof.
  induction s as [|c s IH]; [reflexivity|].
  cbn [Py.replace split_any].
  destruct (Ascii.eqb_spec c newline) as [->|Hn].
  - rewrite orb_true_r. cbn [append split_any]. rewrite IH. reflexivity.
  - rewrite orb_false_r. cbn [split_any].
    rewrite (proj2 (Ascii.eqb_neq _ _) Hn), orb_false_r, IH. reflexivity.
Qed.

Lemma no_token_replace s : no_token s = true -> no_token (Py.replace " " "" s) = true.
Proof.
  induction s as [|c s IH]; cbn [no_token Py.replace]; [reflexivity|].
  intros H. apply andb_prop in H as [Hc Hs].
  destruct (Ascii.eqb c " "); cbn [append no_token]; [auto|].
  rewrite Hc. cbn. auto.
Qed.

Lemma no_token_split s :
  no_token s = true -> Forall (fun p => blank p = true) (split_any s).
Proof.
  induction s as [|c s IH]; cbn [no_token split_any].
  - intros _. repeat constructor.
  - intros H. apply andb_prop in H as [Hc Hs]. specialize (IH Hs).
    destruct (Ascii.eqb_spec c ",") as [->|Hne]; cbn [orb].
    + constructor; [reflexivity|assumption].
    + rewrite orb_false_r in Hc.
      destruct (Ascii.eqb c newline).
      * constructor; [reflexivity|assumption].
      * destruct (split_any s) as [|piece rest].
        -- repeat constructor. cbn. rewrite Hc. reflexivity.
        -- inversion IH; subst. constructor; [|assumption]. cbn. rewrite Hc. assumption.
Qed.

Lemma no_token_parse s : no_token s = true -> parse_input s = Ok [].
Proof.
  intros H. rewrite parse_input_tokens.
  apply no_token_replace, no_token_split in H. unfold spec_tokens.
  induction H as [|p l Hp _ IH]; cbn [map filter]; [reflexivity|].
  rewrite strip_empty, Hp. exact IH.
Qed.

End Text_more.

Import Text_facts Text_more.

(** X1: a field that holds no token (blanks, newlines and commas only, or
    nothing at all) parses to the empty list, and when both fields are such
    the handler shows exactly the two must-not-be-empty errors: no
    minimum-sample error and no mismatch error. *)
Theorem empty_fields_rejected strike_input dip_input :
  no_token strike_input = true -> no_token dip_input = true ->
  parse_input strike_input = Ok [] /\
  parse_input dip_input = Ok [] /\
  on_generate strike_input dip_input = Rejected [strike_empty; dip_empty].
Proof.
  intros Hs Hd. apply no_token_parse in Hs, Hd.
  unfold on_generate. rewrite Hs, Hd. auto.
Qed.

Lemma empty_fields_rejected_witness :
  no_token (String newline " , ") = true /\ no_token "" = true /\
  on_generate (String newline " , ") "" = Rejected [strike_empty; dip_empty].
Proof.
  split; [reflexivity|]. split; [reflexivity|].
  apply (empty_fields_rejected (String newline " , ") ""); reflexivity.
Defined.

(** X2: parsing two texts joined by a comma or by a newline gives the
    values of the first followed by the values of the second; if either
    part has a token that is not a number, the joined text raises the first
    such error, the left part's before the right part's. *)
Theorem parse_input_joined a b sep :
  sep = ","%char \/ sep = newline ->
  parse_input (a ++ String sep b) =
    (xs <- parse_input a ;; ys <- parse_input b ;; Ok (xs ++ ys)).
Proof.
  intros Hsep. rewrite !parse_input_tokens.
  rewrite replace_app. cbn [Py.replace].
  assert (E : Ascii.eqb sep " " = false) by (destruct Hsep as [->| ->]; reflexivity).
  rewrite E, spec_tokens_app by assumption.
  apply traverse_app.
Qed.

Lemma parse_input_joined_witness :
  parse_input ("10, 20" ++ String newline "30") =
    (xs <- parse_input "10, 20" ;; ys <- parse_input "30" ;; Ok (xs ++ ys)).
Proof. apply (parse_input_joined "10, 20" "30" newline). right. reflexivity. Defined.

(** X3: spaces never matter to the parse, wherever they stand, also inside
    a number; and a newline is read exactly as a comma is. *)
Theorem parse_input_spacing :
  (forall a b, parse_input (a ++ " " ++ b) = parse_input (a ++ b)) /\
  (forall text, parse_input (Py.replace " " "" text) = parse_input text) /\
  (forall text, parse_input (Py.replace newline "," text) = parse_input text).
Proof.
  split; [|split].
  - intros a b. rewrite !parse_input_tokens, !replace_app. reflexivity.
  - intros text. rewrite !parse_input_tokens, replace_space_idem. reflexivity.
  - intros text. rewrite !parse_input_tokens. f_equal.
    rewrite replace_commute. unfold spec_tokens.
    now rewrite split_any_newline.
Qed.

Import Rose_facts.

(** X4: validation passes, with no error at all, exactly when there are at
    least 25 strikes and as many dips as strikes. *)
Theorem validation_passes_iff (strikes dips : list F64.t) :
  validate strikes dips = [] <->
  (25 <= length strikes)%nat /\ length dips = length strikes.
Proof.
  rewrite validate_nil. unfold min_samples. intuition congruence.
Qed.

(** X5: two fields of the same length below 25, and not empty, get exactly
    two errors, the minimum-sample error of the strikes and then that of
    the dips, each with the count, and no mismatch error. *)
Theorem both_fields_short (strikes dips : list F64.t) n :
  length strikes = n -> length dips = n -> (0 < n < 25)%nat ->
  validate strikes dips = [strike_too_few n; dip_too_few n].
Proof.
  intros Hs Hd Hn. unfold validate, min_samples. rewrite Hs, Hd.
  destruct (Nat.eqb_spec n 0); [lia|].
  destruct (Nat.ltb_spec n 25); [|lia].
  rewrite Nat.eqb_refl. reflexivity.
Qed.

Lemma both_fields_short_witness :
  validate (repeat F64.zero 2) (repeat F64.zero 2) = [strike_too_few 2; dip_too_few 2].
Proof.
  apply (both_fields_short (repeat F64.zero 2) (repeat F64.zero 2) 2);
    [reflexivity|reflexivity|lia].
Defined.

(** X6: enough strikes and too few dips (but some) get exactly two errors,
    the minimum-sample error of the dips and then the mismatch error with
    both counts. *)
Theorem dips_short (strikes dips : list F64.t) n m :
  length strikes = n -> length dips = m -> (25 <= n)%nat -> (0 < m < 25)%nat ->
  validate strikes dips = [dip_too_few m; length_mismatch n m].
Proof.
  intros Hs Hd Hn Hm. unfold validate, min_samples. rewrite Hs, Hd.
  destruct (Nat.eqb_spec n 0); [lia|].
  destruct (Nat.ltb_spec n 25); [lia|].
  destruct (Nat.eqb_spec m 0); [lia|].
  destruct (Nat.ltb_spec m 25); [|lia].
  destruct (Nat.eqb_spec n m); [lia|]. reflexivity.
Qed.

Lemma dips_short_witness :
  validate (repeat F64.zero 25) (repeat F64.zero 24) =
    [dip_too_few 24; length_mismatch 25 24].
Proof.
  apply (dips_short (repeat F64.zero 25) (repeat F64.zero 24) 25 24);
    [reflexivity|reflexivity|lia|lia].
Defined.

(** X7: the validator reports at most three errors, at most one per check,
    and in the order strike, dip, mismatch: an error about the strikes is
    always first, the mismatch error always last. *)
Theorem errors_in_order (strikes dips : list F64.t) :
  (length (validate strikes dips) <= 3)%nat /\
  (forall x, In x [strike_empty; strike_too_few (length strikes)] ->
     In x (validate strikes dips) -> hd_error (validate strikes dips) = Some x) /\
  (In (length_mismatch (length strikes) (length dips)) (validate strikes dips) ->
     last (validate strikes dips) EmptyString =
       length_mismatch (length strikes) (length dips)).
Proof.
  destruct (Validate_facts.strike_too_few_other (length strikes)) as (A1 & A2 & A3 & A4).
  destruct (Validate_facts.dip_too_few_other (length dips)) as (B1 & B2 & B3 & B4).
  destruct (Validate_facts.length_mismatch_other (length strikes) (length dips))
    as (C1 & C2 & C3 & C4).
  assert (D : dip_empty <> strike_empty) by (unfold dip_empty, strike_empty; congruence).
  unfold validate.
  destruct (Nat.eqb_spec (length strikes) 0),
           (Nat.ltb_spec (length strikes) min_samples),
           (Nat.eqb_spec (length dips) 0),
           (Nat.ltb_spec (length dips) min_samples),
           (Nat.eqb_spec (length strikes) (length dips));
    cbn [negb app length hd_error last In];
    (split; [lia|split]); try reflexivity;
    intuition (subst; try reflexivity; try congruence;
               try (exfalso; eauto using eq_sym; fail)).
Qed.


Module Figure_facts.
Import F64 F64_facts F64_ops Np_facts Rose_facts Bin_facts.

Lemma bin_stat_inv az dd lo hi c m :
  bin_stat az dd lo hi = Ok (c, m) ->
  c = bin_count az (lo, hi) /\ m = bin_mean az dd (lo, hi).
Proof.
  unfold bin_stat, bin_mean, bin_count, bin_mask. cbn [fst snd].
  destruct (0 <? _)%nat.
  - unfold Np.mask_index. destruct (_ =? _)%nat; cbn [bind]; [|discriminate].
    intros H. injection H as <- <-. auto.
  - intros H. injection H as <- <-. auto.
Qed.

(** Whenever the loop returns, it returns the count and the mean of every
    bin, in order. *)
Lemma bin_loop_inv az dd : forall es stats,
  bin_loop az dd es = Ok stats ->
  stats = map (fun e => (bin_count az e, bin_mean az dd e)) es.
Proof.
  induction es as [|[lo hi] es IH]; cbn [bin_loop]; intros stats H.
  - injection H as <-. reflexivity.
  - destruct (bin_stat az dd lo hi) as [[c m]|] eqn:Es; cbn [bind] in H; [|discriminate].
    destruct (bin_loop az dd es) as [ss|]; cbn [bind] in H; [|discriminate].
    injection H as <-. cbn [map]. apply bin_stat_inv in Es as [-> ->].
    f_equal. now apply IH.
Qed.

Lemma generate_inv strikes dips fig :
  generate_rose_diagram strikes dips = Ok fig ->
  fig = mkRose (centers_of bins)
               (map (bin_count (az_full strikes)) edges)
               (map (bin_mean (az_full strikes) (dips ++ dips)) edges)
               (normalize (map (bin_mean (az_full strikes) (dips ++ dips)) edges)).
Proof.
  unfold generate_rose_diagram. intros H.
  destruct (bin_loop _ _ edges) as [stats|] eqn:E; cbn [bind] in H; [|discriminate].
  injection H as <-. apply bin_loop_inv in E. subst stats.
  rewrite !map_map. reflexivity.
Qed.

Lemma edges_length : length edges = 36%nat.
Proof. reflexivity. Qed.

Lemma normalize_length means : length (normalize means) = length means.
Proof. unfold normalize. destruct (ltb _ _); [apply length_map|reflexivity]. Qed.

(** The loop raises as soon as a bin holds a sample and the dips are not as
    many as the azimuths. *)
Lemma bin_loop_raises az dd : forall es,
  length dd <> length az ->
  (exists e, In e es /\ (0 < bin_count az e)%nat) ->
  bin_loop az dd es = Raise IndexError.
Proof.
  intros es Hl. induction es as [|[lo hi] es IH]; intros (e & Hin & Hc).
  - destruct Hin.
  - cbn [bin_loop]. unfold bin_stat.
    change (Np.count_true (map (in_bin (of_Z lo) (of_Z hi)) az))
      with (bin_count az (lo, hi)).
    destruct (Nat.ltb_spec 0 (bin_count az (lo, hi))) as [Hpos|Hzero].
    + unfold Np.mask_index. rewrite length_map.
      destruct (Nat.eqb_spec (length dd) (length az)); [contradiction|reflexivity].
    + cbn [bind]. rewrite IH; [reflexivity|].
      destruct Hin as [<-|Hin]; [lia|eauto].
Qed.

Lemma bin_loop_empty az dd : forall es,
  (forall e, In e es -> bin_count az e = 0%nat) ->
  bin_loop az dd es = Ok (map (fun e => (0%nat, zero)) es).
Proof.
  induction es as [|[lo hi] es IH]; intros H; cbn [bin_loop map]; [reflexivity|].
  unfold bin_stat.
  change (Np.count_true (map (in_bin (of_Z lo) (of_Z hi)) az))
    with (bin_count az (lo, hi)).
  rewrite (H (lo, hi)) by now left. cbn [Nat.ltb Nat.leb bind].
  rewrite IH by (intros e He; apply H; now right). reflexivity.
Qed.

Lemma bin_count_pos az i v :
  (i < 36)%nat -> In v az -> in_bin (edge i) (edge (S i)) v = true ->
  (0 < bin_count az ((10 * Z.of_nat i)%Z, (10 * Z.of_nat (S i))%Z))%nat.
Proof.
  intros Hi Hin Hv. unfold bin_count, bin_mask. cbn [fst snd].
  rewrite count_true_map, <- !edge_of_Z by lia.
  assert (In v (filter (in_bin (edge i) (edge (S i))) az)) by (apply filter_In; auto).
  destruct (filter _ az); [contradiction|cbn; lia].
Qed.

Lemma bin_count_zero az e :
  In e edges -> (forall v, In v az -> in_range v = false) -> bin_count az e = 0%nat.
Proof.
  intros He Hout. rewrite edges_eq in He. apply in_map_iff in He as (i & <- & Hi).
  apply in_seq in Hi. unfold bin_count, bin_mask. cbn [fst snd].
  rewrite count_true_map, <- !edge_of_Z by lia.
  rewrite empty_filter; [reflexivity|].
  intros v Hv. destruct (in_bin (edge i) (edge (S i)) v) eqn:E; [|reflexivity].
  apply in_bin_in_range in E; [|lia]. rewrite Hout in E by assumption. discriminate.
Qed.

Lemma filter_le {A} (f : A -> bool) l : (length (filter f l) <= length l)%nat.
Proof. induction l as [|x l IH]; cbn; [lia|]. destruct (f x); cbn; lia. Qed.

Lemma Permutation_filter_length {A} (f : A -> bool) l l' :
  Permutation l l' -> length (filter f l) = length (filter f l').
Proof.
  induction 1; cbn; try congruence.
  - destruct (f x); cbn; congruence.
  - destruct (f x), (f y); reflexivity.
Qed.

Lemma az_full_perm strikes strikes' :
  Permutation strikes strikes' -> Permutation (az_full strikes) (az_full strikes').
Proof.
  intros H. unfold az_full. cbv zeta.
  apply Permutation_app; repeat apply Permutation_map; exact H.
Qed.

End Figure_facts.

Import Figure_facts.

(** X9: every figure has all 36 bins, empty ones included: 36 centres, at
    5, 15, ..., 355 degrees, and 36 counts, mean dips and normalised
    dips. *)
Theorem figure_has_36_bins strikes dips fig :
  generate_rose_diagram strikes dips = Ok fig ->
  bin_centers fig = map (fun i => F64.of_Z (10 * Z.of_nat i + 5)) (seq 0 36) /\
  length (counts fig) = 36%nat /\
  length (dip_means fig) = 36%nat /\
  length (dip_norm fig) = 36%nat.
Proof.
  intros H. apply generate_inv in H. subst fig.
  cbn [bin_centers counts dip_means dip_norm].
  rewrite normalize_length, !length_map, edges_length.
  split; [vm_compute; reflexivity|auto].
Qed.

Lemma figure_has_36_bins_witness :
  exists fig,
    generate_rose_diagram scenario_A_strikes scenario_A_dips = Ok fig /\
    length (counts fig) = 36%nat.
Proof.
  eexists. split; [vm_compute; reflexivity|].
  refine (proj1 (proj2 (figure_has_36_bins scenario_A_strikes scenario_A_dips _ _))).
  vm_compute; reflexivity.
Defined.

(** X10: called with a different number of dips than strikes,
    [generate_rose_diagram] raises [IndexError] as soon as one doubled
    azimuth lies in a bin; when none does (every strike NaN or infinite, or
    no strike at all) it returns a figure with all counts 0 and all means 0,
    whatever the dips. *)
Theorem mismatched_lengths_raise strikes dips :
  (length strikes <> length dips ->
   (exists v, In v (az_full strikes) /\ in_range v = true) ->
   generate_rose_diagram strikes dips = Raise IndexError) /\
  ((forall v, In v (az_full strikes) -> in_range v = false) ->
   generate_rose_diagram strikes dips =
     Ok (mkRose (centers_of bins) (repeat 0%nat 36)
                (repeat F64.zero 36) (repeat F64.zero 36))).
Proof.
  split.
  - intros Hl (v & Hin & Hv). unfold generate_rose_diagram.
    rewrite bin_loop_raises; [reflexivity| |].
    + rewrite length_app, az_full_length. lia.
    + destruct (Bin_facts.bin_index v Hv) as (i & Hi & Hu).
      exists (10 * Z.of_nat i, 10 * Z.of_nat (S i)). split.
      * rewrite Rose_facts.edges_eq.
        apply (in_map (fun i => (10 * Z.of_nat i, 10 * Z.of_nat (S i)))), in_seq. lia.
      * apply (bin_count_pos _ i v); [assumption|assumption|]. now apply Hu.
  - intros Hout. unfold generate_rose_diagram.
    rewrite bin_loop_empty by (intros e He; now apply bin_count_zero).
    cbn [bind]. rewrite !map_map. cbn [fst snd].
    reflexivity.
Qed.

Lemma mismatched_lengths_raise_witness :
  generate_rose_diagram [F64.of_Z 10] [] = Raise IndexError /\
  generate_rose_diagram [F64.NaN] [] =
    Ok (mkRose (centers_of bins) (repeat 0%nat 36)
               (repeat F64.zero 36) (repeat F64.zero 36)).
Proof.
  split.
  - apply (proj1 (mismatched_lengths_raise [F64.of_Z 10] [])); [discriminate|].
    eexists. split; [left; reflexivity|vm_compute; reflexivity].
  - apply (proj2 (mismatched_lengths_raise [F64.NaN] [])).
    intros v [<-|[<-|[]]]; vm_compute; reflexivity.
Defined.

(** X11: the counts do not depend on the order of the samples, nor on the
    dips: two inputs whose strikes are a rearrangement of one another have
    the same count in every bin. *)
Theorem counts_ignore_order strikes strikes' dips dips' fig fig' :
  Permutation strikes strikes' ->
  generate_rose_diagram strikes dips = Ok fig ->
  generate_rose_diagram strikes' dips' = Ok fig' ->
  counts fig = counts fig'.
Proof.
  intros Hp H H'.
  rewrite (Bin_facts.generate_counts _ _ _ H), (Bin_facts.generate_counts _ _ _ H').
  rewrite !Bin_facts.bin_counts_eq. apply map_ext. intros i.
  apply Permutation_filter_length, az_full_perm, Hp.
Qed.

Lemma counts_ignore_order_witness :
  exists fig fig',
    generate_rose_diagram [F64.of_Z 10; F64.of_Z 200] [F64.of_Z 50; F64.of_Z 40] = Ok fig /\
    generate_rose_diagram [F64.of_Z 200; F64.of_Z 10] [F64.of_Z 1; F64.of_Z 2] = Ok fig' /\
    counts fig = counts fig'.
Proof.
  do 2 eexists. split; [vm_compute; reflexivity|]. split; [vm_compute; reflexivity|].
  apply (counts_ignore_order [F64.of_Z 10; F64.of_Z 200] [F64.of_Z 200; F64.of_Z 10]
           [F64.of_Z 50; F64.of_Z 40] [F64.of_Z 1; F64.of_Z 2]);
    [apply perm_swap|vm_compute; reflexivity|vm_compute; reflexivity].
Defined.

Module Range_facts.
Import F64 F64_facts F64_ops Np_facts Rose_facts Bin_facts Whole_facts Whole_strikes.
Import Figure_facts.
Import Norm_facts.

Lemma fold_maximum_in rest : forall x, In (fold_left Np.maximum rest x) (x :: rest).
Proof.
  induction rest as [|y rest IH]; intros x; cbn [fold_left]; [now left|].
  destruct (IH (Np.maximum x y)) as [H|H]; [|right; now right].
  rewrite <- H. unfold Np.maximum. destruct (_ || _); [now left|right; now left].
Qed.

Lemma max_in l : l <> [] -> In (Np.max l) l.
Proof. destruct l as [|x rest]; [congruence|]. intros _. apply fold_maximum_in. Qed.

Lemma div_zero_positive m :
  well_formed m -> ltb zero m = true -> div zero m = zero.
Proof.
  destruct m as [|s|s k]; cbn [ltb well_formed]; try discriminate.
  - destruct s; [discriminate|reflexivity].
  - intros Hk Hlt. unfold zero in *. cbn [sval] in Hlt. apply Z.ltb_lt in Hlt.
    destruct s; cbn [sval] in Hlt; [lia|].
    cbn [div]. destruct (Z.eqb_spec k 0); [lia|].
    destruct (div_operands 0 k ltac:(lia) ltac:(lia)) as (Hd & _). cbv zeta in *.
    rewrite Z.shiftl_0_l, round_zero by exact Hd. reflexivity.
Qed.

(** *** Rounding an integer between two representable bounds *)

Lemma round_int_between neg a L H S :
  0 <= L <= a -> a <= H -> 0 <= S -> H < 2 ^ (S + 53) ->
  (2 ^ S | L) -> (2 ^ S | H) -> H < overflow_mag ->
  exists mag, round neg a 1 = Fin neg mag /\ L <= mag <= H.
Proof.
  intros HL HH HS Hbig [l Hl] [h Hh] Hov.
  destruct (round_spec neg a 1 ltac:(lia) ltac:(lia)) as (s & k & Hs & Hk & Hex & ->).
  cbv zeta in *. rewrite Z.div_1_r, Z.mod_1_r in *.
  assert (Hd : digits a <= S + 53) by (apply digits_bound_strict; lia).
  assert (Hs0 : 0 <= s <= S) by lia.
  assert (Hp : 0 < 2 ^ s) by (apply Z.pow_pos_nonneg; lia).
  assert (HpS : 2 ^ S = 2 ^ (S - s) * 2 ^ s)
    by (rewrite <- Z.pow_add_r by lia; f_equal; lia).
  assert (Hq : 0 < 2 ^ (S - s)) by (apply Z.pow_pos_nonneg; lia).
  set (t := 2 ^ s) in *. set (u := 2 ^ (S - s)) in *.
  pose proof (Z.div_mod a t ltac:(lia)) as Ea.
  pose proof (Z.mod_pos_bound a t Hp) as Hr.
  set (qh := a / t) in *.
  assert (Hlo : l * u <= qh) by nia.
  assert (Hhi : qh <= h * u) by nia.
  assert (Hm : L <= k * t <= H).
  { split; [nia|].
    destruct (Z.eq_dec qh (h * u)) as [E|E].
    - assert (k = qh) by (apply Hex; nia). nia.
    - nia. }
  exists (k * t). split; [|exact Hm].
  destruct (Z.leb_spec overflow_mag (k * t)); [lia|reflexivity].
Qed.

Lemma half_turn_eq : of_Z 180 = Fin false (180 * one_mag).
Proof. change 180 with (10 * Z.of_nat 18). apply of_Z_edge. lia. Qed.

Lemma full_turn_eq : of_Z 360 = Fin false (360 * one_mag).
Proof. change 360 with (10 * Z.of_nat 36). apply of_Z_edge. lia. Qed.

Lemma turn_bounds :
  360 * one_mag < 2 ^ (1030 + 53) /\ 360 * one_mag < overflow_mag /\
  (2 ^ 1030 | 180 * one_mag) /\ (2 ^ 1030 | 360 * one_mag) /\ (2 ^ 1030 | 0).
Proof.
  split; [vm_compute; reflexivity|].
  split; [vm_compute; reflexivity|].
  split; [exists (180 * 2 ^ 44); vm_compute; reflexivity|].
  split; [exists (360 * 2 ^ 44); vm_compute; reflexivity|].
  apply Z.divide_0_r.
Qed.

Lemma is_zero_fin s k : Np.is_zero (Fin s k) = (k =? 0).
Proof. destruct k; reflexivity. Qed.

(** [s % 360] of a finite strike lies in [[0, 360]]: a negative remainder
    is moved up by one rounded addition, which can reach [360.0] itself. *)
Lemma wrap_range s k :
  0 <= k ->
  exists m, Np.remainder (Fin s k) (of_Z 360) = Fin false m /\ 0 <= m <= 360 * one_mag.
Proof.
  intros Hk. pose proof one_mag_pos as HU.
  destruct turn_bounds as (B1 & B2 & _ & B4 & B5).
  rewrite full_turn_eq. unfold Np.remainder. rewrite fmod_exact by lia.
  pose proof (Z.mod_pos_bound k (360 * one_mag) ltac:(lia)) as Hr.
  set (r := k mod (360 * one_mag)) in *.
  rewrite !is_zero_fin.
  destruct (Z.eqb_spec (360 * one_mag) 0); [lia|].
  destruct (Z.eqb_spec r 0) as [E|E].
  - exists 0. cbn [signbit]. split; [reflexivity|lia].
  - cbn [ltb zero sval]. destruct (Z.ltb_spec (360 * one_mag) 0); [lia|].
    destruct s; cbn [sval].
    + destruct (Z.ltb_spec (- r) 0); [|lia]. cbn [xorb add sval].
      destruct (Z.eqb_spec (- r + 360 * one_mag) 0); [lia|].
      destruct (Z.ltb_spec (- r + 360 * one_mag) 0); [lia|].
      destruct (round_int_between false (Z.abs (- r + 360 * one_mag)) 0 (360 * one_mag) 1030)
        as (mag & -> & Hm); try assumption; try lia.
      exists mag. split; [reflexivity|lia].
    + destruct (Z.ltb_spec r 0); [lia|]. cbn [xorb].
      exists r. split; [reflexivity|lia].
Qed.

(** [az = strikes % 180] lies in [[0, 180)] and is never [-0.0]. *)
Lemma half_range m :
  0 <= m ->
  exists a, Np.remainder (Fin false m) (of_Z 180) = Fin false a /\ 0 <= a < 180 * one_mag.
Proof.
  intros Hm. pose proof one_mag_pos as HU.
  rewrite half_turn_eq. unfold Np.remainder. rewrite fmod_exact by lia.
  pose proof (Z.mod_pos_bound m (180 * one_mag) ltac:(lia)) as Hr.
  set (r := m mod (180 * one_mag)) in *.
  rewrite !is_zero_fin.
  destruct (Z.eqb_spec (180 * one_mag) 0); [lia|].
  destruct (Z.eqb_spec r 0) as [E|E].
  - exists 0. cbn [signbit]. split; [reflexivity|lia].
  - cbn [ltb zero sval]. destruct (Z.ltb_spec (180 * one_mag) 0); [lia|].
    destruct (Z.ltb_spec r 0); [lia|]. cbn [xorb].
    exists r. split; [reflexivity|lia].
Qed.

(** [az + 180] lies in [[180, 360]]: the sum is rounded, and just below
    [180.0] it rounds up to [360.0]. *)
Lemma double_range a :
  0 <= a < 180 * one_mag ->
  exists d, add (Fin false a) (of_Z 180) = Fin false d /\
            180 * one_mag <= d <= 360 * one_mag.
Proof.
  intros Ha. pose proof one_mag_pos as HU.
  destruct turn_bounds as (B1 & B2 & B3 & B4 & _).
  rewrite half_turn_eq. cbn [add sval].
  destruct (Z.eqb_spec (a + 180 * one_mag) 0); [lia|].
  destruct (Z.ltb_spec (a + 180 * one_mag) 0); [lia|].
  destruct (round_int_between false (Z.abs (a + 180 * one_mag))
              (180 * one_mag) (360 * one_mag) 1030)
    as (mag & -> & Hm); try assumption; try lia.
  exists mag. split; [reflexivity|lia].
Qed.

Lemma fold_finite s k :
  0 <= k ->
  exists a d,
    Np.remainder (Np.remainder (Fin s k) (of_Z 360)) (of_Z 180) = Fin false a /\
    0 <= a < 180 * one_mag /\
    add (Fin false a) (of_Z 180) = Fin false d /\
    180 * one_mag <= d <= 360 * one_mag.
Proof.
  intros Hk. destruct (wrap_range s k Hk) as (m & -> & Hm).
  destruct (half_range m ltac:(lia)) as (a & -> & Ha).
  destruct (double_range a Ha) as (d & Hd & Hd').
  exists a, d. auto.
Qed.

Lemma fold_not_finite x :
  is_finite x = false ->
  Np.remainder (Np.remainder x (of_Z 360)) (of_Z 180) = NaN.
Proof.
  destruct x as [|s|s k]; [| |discriminate]; intros _.
  - vm_compute. reflexivity.
  - destruct s; vm_compute; reflexivity.
Qed.

(** *** Runs of consecutive bins *)

Lemma in_bin_run lo n v :
  (lo + S n <= 36)%nat ->
  in_bin (edge lo) (edge (lo + S n)) v =
    in_bin (edge lo) (edge (lo + n)) v || in_bin (edge (lo + n)) (edge (S (lo + n))) v.
Proof.
  intros Hn. pose proof one_mag_pos as HU.
  replace (lo + S n)%nat with (S (lo + n)) by lia.
  rewrite !edge_eq by lia. unfold in_bin.
  assert (E0 : 10 * Z.of_nat lo * one_mag <= 10 * Z.of_nat (lo + n) * one_mag) by nia.
  assert (E1 : 10 * Z.of_nat (lo + n) * one_mag < 10 * Z.of_nat (S (lo + n)) * one_mag) by nia.
  set (p := 10 * Z.of_nat lo * one_mag) in *.
  set (q := 10 * Z.of_nat (lo + n) * one_mag) in *.
  set (r := 10 * Z.of_nat (S (lo + n)) * one_mag) in *.
  destruct v as [|s|s k]; cbn [leb ltb sval]; [reflexivity|destruct s; reflexivity|].
  destruct (Z.leb_spec p (sval s k)), (Z.ltb_spec (sval s k) r),
    (Z.ltb_spec (sval s k) q), (Z.leb_spec q (sval s k)); cbn; try reflexivity; lia.
Qed.

Lemma in_bin_disjoint lo n v :
  (lo + S n <= 36)%nat ->
  in_bin (edge lo) (edge (lo + n)) v = true ->
  in_bin (edge (lo + n)) (edge (S (lo + n))) v = false.
Proof.
  intros Hn. rewrite !edge_eq by lia. unfold in_bin.
  destruct v as [|s|s k]; cbn [leb ltb sval]; try discriminate.
  - destruct s; discriminate.
  - intros H. apply andb_prop in H as [_ H]. apply Z.ltb_lt in H.
    destruct (Z.leb_spec (10 * Z.of_nat (lo + n) * one_mag) (sval s k)); [lia|reflexivity].
Qed.

Lemma in_bin_void lo v : (lo <= 36)%nat -> in_bin (edge lo) (edge lo) v = false.
Proof.
  intros Hlo. rewrite !edge_eq by lia. unfold in_bin.
  destruct v as [|s|s k]; cbn [leb ltb sval]; [reflexivity|destruct s; reflexivity|].
  destruct (Z.leb_spec (10 * Z.of_nat lo * one_mag) (sval s k)),
    (Z.ltb_spec (sval s k) (10 * Z.of_nat lo * one_mag)); cbn; try reflexivity; lia.
Qed.

(** An azimuth falls in exactly one bin of a run of bins when it lies
    between the run's outer edges, and in none otherwise. *)
Lemma run_hits v : forall n lo,
  (lo + n <= 36)%nat ->
  length (filter (fun j => in_bin (edge j) (edge (S j)) v) (seq lo n)) =
    if in_bin (edge lo) (edge (lo + n)) v then 1%nat else 0%nat.
Proof.
  induction n as [|n IH]; intros lo Hn.
  - rewrite Nat.add_0_r, in_bin_void by lia. reflexivity.
  - rewrite seq_S, filter_app, length_app, IH by lia.
    rewrite (in_bin_run lo n v Hn). cbn [filter].
    destruct (in_bin (edge lo) (edge (lo + n)) v) eqn:E.
    + rewrite (in_bin_disjoint lo n v Hn E). reflexivity.
    + destruct (in_bin (edge (lo + n)) (edge (S (lo + n))) v); reflexivity.
Qed.

Lemma firstn_seq n : forall start len,
  (n <= len)%nat -> firstn n (seq start len) = seq start n.
Proof.
  induction n as [|n IH]; intros start len Hn; [reflexivity|].
  destruct len as [|len]; [lia|]. cbn. f_equal. apply IH. lia.
Qed.

Lemma run_counts l lo n :
  (lo + n <= 36)%nat ->
  fold_right Nat.add O (firstn n (skipn lo (map (bin_count l) edges))) =
    length (filter (in_bin (edge lo) (edge (lo + n))) l).
Proof.
  intros Hn. rewrite bin_counts_eq.
  rewrite skipn_map, firstn_map, skipn_seq, firstn_seq by lia.
  rewrite Nat.add_0_l.
  rewrite sum_counts, <- sum_indicator. f_equal.
  apply map_ext. intros v. now apply run_hits.
Qed.

(** *** The two half circles *)

Lemma az_full_eq strikes :
  az_full strikes = az strikes ++ map (fun a => add a (of_Z 180)) (az strikes).
Proof. unfold az_full, az. cbv zeta. rewrite map_map. reflexivity. Qed.

Lemma filter_map_length {A B} (p : B -> bool) (f : A -> B) l :
  length (filter p (map f l)) = length (filter (fun x => p (f x)) l).
Proof.
  induction l as [|x l IH]; cbn; [reflexivity|]. destruct (p (f x)); cbn; congruence.
Qed.

Lemma filter_none_length {A} (p : A -> bool) l :
  (forall x, In x l -> p x = false) -> length (filter p l) = 0%nat.
Proof. intros H. rewrite empty_filter by exact H. reflexivity. Qed.

Lemma filter_split_length {A} (p q r : A -> bool) l :
  (forall x, In x l -> r x = xorb (p x) (q x) /\ p x && q x = false) ->
  (length (filter p l) + length (filter q l) = length (filter r l))%nat.
Proof.
  induction l as [|x l IH]; intros H; [reflexivity|]. cbn [filter].
  destruct (H x (or_introl eq_refl)) as [Hr Hd].
  specialize (IH (fun y Hy => H y (or_intror Hy))).
  rewrite Hr. destruct (p x), (q x); cbn in *; try discriminate; lia.
Qed.

Lemma in_half (lo hi : nat) s k :
  (lo <= 36)%nat -> (hi <= 36)%nat ->
  in_bin (edge lo) (edge hi) (Fin s k) =
    (10 * Z.of_nat lo * one_mag <=? sval s k) && (sval s k <? 10 * Z.of_nat hi * one_mag).
Proof. intros Hlo Hhi. rewrite !edge_eq by lia. reflexivity. Qed.

Lemma in_half_nan (lo hi : nat) :
  (lo <= 36)%nat -> (hi <= 36)%nat -> in_bin (edge lo) (edge hi) NaN = false.
Proof. intros Hlo Hhi. rewrite !edge_eq by lia. reflexivity. Qed.

(** What one strike contributes to the two half circles. *)
Lemma strike_shares x :
  well_formed x ->
  let a := Np.remainder (Np.remainder x (of_Z 360)) (of_Z 180) in
  let d := add a (of_Z 180) in
  in_bin (edge 0) (edge 18) a = is_finite x /\
  in_bin (edge 0) (edge 18) d = false /\
  in_bin (edge 18) (edge 36) a = false /\
  is_finite x = xorb (in_bin (edge 18) (edge 36) d) (eqb d (of_Z 360)) /\
  in_bin (edge 18) (edge 36) d && eqb d (of_Z 360) = false.
Proof.
  intros Hx. pose proof one_mag_pos as HU. cbv zeta.
  destruct (is_finite x) eqn:Hf.
  - destruct x as [|s|s k]; try discriminate. cbn [well_formed] in Hx.
    destruct (fold_finite s k Hx) as (a & d & -> & Ha & -> & Hd).
    rewrite full_turn_eq. unfold eqb. cbn [leb sval].
    rewrite !in_half by lia. cbn [sval].
    change (Z.of_nat 0) with 0. change (Z.of_nat 18) with 18. change (Z.of_nat 36) with 36.
    destruct (Z.leb_spec (10 * 0 * one_mag) a), (Z.ltb_spec a (10 * 18 * one_mag)),
      (Z.leb_spec (10 * 0 * one_mag) d), (Z.ltb_spec d (10 * 18 * one_mag)),
      (Z.leb_spec (10 * 18 * one_mag) a), (Z.ltb_spec a (10 * 36 * one_mag)),
      (Z.leb_spec (10 * 18 * one_mag) d), (Z.ltb_spec d (10 * 36 * one_mag)),
      (Z.leb_spec d (360 * one_mag)), (Z.leb_spec (360 * one_mag) d);
      cbn; try lia; auto.
  - rewrite (fold_not_finite x Hf). cbn [add].
    rewrite !in_half_nan by lia. repeat split; reflexivity.
Qed.

Lemma half_circles strikes :
  Forall well_formed strikes ->
  length (filter (in_bin (edge 0) (edge 18)) (az_full strikes)) = finite_count strikes /\
  (length (filter (in_bin (edge 18) (edge 36)) (az_full strikes)) + on_full_turn strikes
   = finite_count strikes)%nat.
Proof.
  intros Hwf. rewrite Forall_forall in Hwf.
  unfold on_full_turn, finite_count. rewrite az_full_eq, !filter_app, !length_app.
  unfold az. rewrite !map_map, !filter_map_length.
  split.
  - rewrite (filter_none_length (fun x => in_bin (edge 0) (edge 18) (add _ _))), Nat.add_0_r
      by (intros x Hx; apply (strike_shares x (Hwf x Hx))).
    f_equal. apply filter_ext_in. intros x Hx. apply (strike_shares x (Hwf x Hx)).
  - rewrite (filter_none_length (fun x => in_bin (edge 18) (edge 36) (Np.remainder _ _))), Nat.add_0_l
      by (intros x Hx; apply (strike_shares x (Hwf x Hx))).
    apply filter_split_length. intros x Hx.
    split; apply (strike_shares x (Hwf x Hx)).
Qed.

End Range_facts.

Import Norm_facts Range_facts.

Module Handler_facts.
Import F64 F64_facts F64_ops Rose_facts Bin_facts Text_facts Figure_facts Range_facts.

Lemma digit_val_nonneg c d : Py.digit_val c = Some d -> 0 <= d.
Proof.
  unfold Py.digit_val. destruct (_ && _)%bool; [|discriminate].
  intros H. injection H as <-. lia.
Qed.

Lemma more_digits_nonneg : forall s value count,
  0 <= value -> 0 <= fst (fst (Py.more_digits s value count)).
Proof.
  fix IH 1. intros s value count Hv. destruct s as [|c s']; [exact Hv|].
  cbn [Py.more_digits].
  destruct (Py.digit_val c) as [d|] eqn:Ed.
  - apply IH. pose proof (digit_val_nonneg c d Ed). lia.
  - destruct (Ascii.eqb c "_"); [|exact Hv].
    destruct s' as [|c2 s'']; [exact Hv|].
    destruct (Py.digit_val c2) as [d|] eqn:Ed2; [|exact Hv].
    apply IH. pose proof (digit_val_nonneg c2 d Ed2). lia.
Qed.

Lemma digitpart_nonneg s value count :
  0 <= value -> 0 <= fst (fst (Py.digitpart s value count)).
Proof.
  intros Hv. destruct s as [|c s']; [exact Hv|]. cbn [Py.digitpart].
  destruct (Py.digit_val c) as [d|] eqn:Ed; [|exact Hv].
  apply more_digits_nonneg. pose proof (digit_val_nonneg c d Ed). lia.
Qed.

Lemma round_well_formed neg a d : 0 <= a -> 0 < d -> well_formed (round neg a d).
Proof.
  intros Ha Hd.
  destruct (round_nonneg neg a d Ha Hd) as [->|(m & -> & Hm)]; [exact I|exact Hm].
Qed.

(** [float] only yields values with a non-negative magnitude. *)
Lemma float_well_formed s v : Py.float s = Some v -> well_formed v.
Proof.
  unfold Py.float. destruct (Py.sign (Py.strip s)) as [neg body].
  destruct (_ || _)%bool; [intros H; injection H as <-; exact I|].
  destruct (String.eqb _ "nan"); [intros H; injection H as <-; exact I|].
  pose proof (digitpart_nonneg body 0 0 ltac:(lia)) as H1.
  destruct (Py.digitpart body 0 0) as [[m1 n1] s1]. cbn [fst] in H1.
  assert (H2 : forall p, p = match s1 with
                             | String "." s1' => Py.digitpart s1' m1 n1
                             | _ => (m1, n1, s1)
                             end -> 0 <= fst (fst p)).
  { intros p ->. destruct s1 as [|c s1']; [exact H1|].
    destruct (Ascii.eqb_spec c "."%char) as [->|Hc].
    - apply digitpart_nonneg. exact H1.
    - destruct c as [[] [] [] [] [] [] [] []]; try exact H1. congruence. }
  specialize (H2 _ eq_refl).
  destruct (match s1 with String "." s1' => Py.digitpart s1' m1 n1 | _ => (m1, n1, s1) end)
    as [[m2 n2] s2]. cbn [fst] in H2.
  destruct (n2 =? 0); [discriminate|].
  destruct (Py.exponent s2) as [[e rest]|]; [|discriminate].
  destruct rest; [|discriminate].
  assert (Some_wf : forall u : F64.t, well_formed u -> Some u = Some v -> well_formed v)
    by (intros u Hu Huv; congruence).
  destruct (Z.leb_spec 0 (e - (n2 - n1))) as [He|He]; apply Some_wf.
  - assert (0 <= m2 * 10 ^ (e - (n2 - n1)))
      by (apply Z.mul_nonneg_nonneg; [exact H2|apply Z.pow_nonneg; lia]).
    apply (round_well_formed neg (Z.shiftl (m2 * 10 ^ (e - (n2 - n1))) 1074) 1); [|lia].
    apply (proj2 (Z.shiftl_nonneg _ _)). assumption.
  - apply (round_well_formed neg (Z.shiftl m2 1074) (10 ^ (- (e - (n2 - n1))))).
    + apply (proj2 (Z.shiftl_nonneg _ _)). exact H2.
    + apply Z.pow_pos_nonneg; lia.
Qed.

Lemma parse_well_formed text xs : parse_input text = Ok xs -> Forall well_formed xs.
Proof.
  rewrite parse_input_tokens. intros H. apply traverse_ok in H.
  induction H as [|x y l ys Hxy _ IH]; constructor; [|exact IH].
  unfold float_or_raise in Hxy.
  destruct (Py.float x) as [v|] eqn:E; [|discriminate].
  injection Hxy as <-. exact (float_well_formed x v E).
Qed.


Lemma sum_split (l : list nat) n :
  fold_right Nat.add O l =
    (fold_right Nat.add O (firstn n l) + fold_right Nat.add O (skipn n l))%nat.
Proof.
  rewrite <- (firstn_skipn n l) at 1.
  induction (firstn n l) as [|x f IH]; cbn; [reflexivity|]. rewrite IH. lia.
Qed.

(** The counts of the two half circles of a figure. *)
Lemma figure_halves strikes dips fig :
  Forall well_formed strikes ->
  generate_rose_diagram strikes dips = Ok fig ->
  fold_right Nat.add O (firstn 18 (counts fig)) = finite_count strikes /\
  (fold_right Nat.add O (skipn 18 (counts fig)) + on_full_turn strikes
   = finite_count strikes)%nat.
Proof.
  intros Hwf H. rewrite (generate_counts _ _ _ H).
  destruct (half_circles strikes Hwf) as [H1 H2]. split.
  - rewrite <- H1. apply (run_counts (az_full strikes) 0 18). lia.
  - rewrite <- H2. f_equal.
    rewrite <- (firstn_all (skipn 18 _)).
    rewrite length_skipn, length_map, edges_length.
    apply (run_counts (az_full strikes) 18 18). lia.
Qed.

Lemma zero_eq : of_Z 0 = Fin false 0.
Proof. vm_compute. reflexivity. Qed.

End Handler_facts.

Import Handler_facts.

(** X12: a bin that holds no sample has mean dip [+0.0] and normalised dip
    [+0.0]. *)
Theorem empty_bin_is_zero strikes dips fig i :
  generate_rose_diagram strikes dips = Ok fig -> (i < 36)%nat ->
  nth i (counts fig) O = O ->
  nth i (dip_means fig) F64.NaN = F64.zero /\ nth i (dip_norm fig) F64.NaN = F64.zero.
Proof.
  intros H Hi Hc. apply generate_inv in H. subst fig.
  cbn [counts dip_means dip_norm] in *.
  rewrite Whole_strikes.nth_map_edges in Hc by assumption.
  rewrite Whole_strikes.nth_normalize, !Whole_strikes.nth_map_edges by assumption.
  set (e := (10 * Z.of_nat i, 10 * Z.of_nat (S i))) in *.
  set (means := map (bin_mean (az_full strikes) (dips ++ dips)) edges).
  assert (Hm : bin_mean (az_full strikes) (dips ++ dips) e = F64.zero)
    by (unfold bin_mean; rewrite Hc; reflexivity).
  rewrite Hm. split; [reflexivity|].
  destruct (F64.ltb F64.zero (Np.max means)) eqn:E; [|reflexivity].
  apply div_zero_positive; [|exact E].
  assert (Hin : In (Np.max means) means).
  { apply max_in. unfold means. rewrite Rose_facts.edges_eq. discriminate. }
  apply in_map_iff in Hin as (e' & <- & _). apply bin_mean_well_formed.
Qed.

Lemma empty_bin_is_zero_witness :
  exists fig,
    generate_rose_diagram [F64.of_Z 10] [F64.of_Z 50] = Ok fig /\
    nth 5 (dip_means fig) F64.NaN = F64.zero /\ nth 5 (dip_norm fig) F64.NaN = F64.zero.
Proof.
  eexists. split; [vm_compute; reflexivity|].
  apply (empty_bin_is_zero [F64.of_Z 10] [F64.of_Z 50] _ 5);
    [vm_compute; reflexivity|lia|vm_compute; reflexivity].
Defined.

(** X13: for a finite strike the folded azimuth [az = (strike % 360) % 180]
    lies in [[0, 180)] and is never [-0.0], and the doubled azimuth
    [az + 180] lies in [[180, 360]], the upper end included; for a NaN or
    infinite strike both are NaN. *)
Theorem folded_azimuth_range x :
  well_formed x ->
  let a := Np.remainder (Np.remainder x (F64.of_Z 360)) (F64.of_Z 180) in
  let d := F64.add a (F64.of_Z 180) in
  (F64.is_finite x = true ->
     in_bin (F64.of_Z 0) (F64.of_Z 180) a = true /\ F64.signbit a = false /\
     F64.leb (F64.of_Z 180) d = true /\ F64.leb d (F64.of_Z 360) = true) /\
  (F64.is_finite x = false -> a = F64.NaN /\ d = F64.NaN).
Proof.
  intros Hx. cbv zeta. split; intros Hf.
  - destruct x as [|s|s k]; try discriminate. cbn [well_formed] in Hx.
    destruct (fold_finite s k Hx) as (a & d & -> & Ha & -> & Hd).
    rewrite zero_eq, half_turn_eq, full_turn_eq. unfold in_bin.
    cbn [F64.leb F64.ltb F64.sval F64.signbit].
    destruct (Z.leb_spec 0 a), (Z.ltb_spec a (180 * F64.one_mag)),
      (Z.leb_spec (180 * F64.one_mag) d), (Z.leb_spec d (360 * F64.one_mag));
      cbn; try lia; auto.
  - rewrite (fold_not_finite x Hf). split; reflexivity.
Qed.

Lemma folded_azimuth_range_witness :
  F64.leb (F64.of_Z 180)
    (F64.add (Np.remainder (Np.remainder (F64.Fin true 7) (F64.of_Z 360)) (F64.of_Z 180))
             (F64.of_Z 180)) = true.
Proof.
  refine (proj1 (proj2 (proj2 (proj1 (folded_azimuth_range (F64.Fin true 7) _) _)))).
  - cbn. lia.
  - reflexivity.
Defined.

(** X14: a run of consecutive bins counts exactly the doubled azimuths
    between its outer edges: the counts of bins [lo .. lo + n - 1] add up to
    the number of entries of [az_full] in [[10 lo, 10 (lo + n))]. *)
Theorem consecutive_bins_count strikes dips fig lo n :
  generate_rose_diagram strikes dips = Ok fig -> (lo + n <= 36)%nat ->
  fold_right Nat.add O (firstn n (skipn lo (counts fig))) =
    length (filter (in_bin (edge lo) (edge (lo + n))) (az_full strikes)).
Proof.
  intros H Hn. rewrite (Bin_facts.generate_counts _ _ _ H).
  now apply run_counts.
Qed.

Lemma consecutive_bins_count_witness :
  exists fig,
    generate_rose_diagram [F64.of_Z 10; F64.of_Z 200] [F64.of_Z 50; F64.of_Z 40] = Ok fig /\
    fold_right Nat.add O (firstn 3 (skipn 1 (counts fig))) = 2%nat.
Proof.
  eexists. split; [vm_compute; reflexivity|].
  rewrite (consecutive_bins_count [F64.of_Z 10; F64.of_Z 200] [F64.of_Z 50; F64.of_Z 40] _ 1 3);
    [vm_compute; reflexivity|vm_compute; reflexivity|lia].
Defined.

(** X15: the first 18 bins (0 to 180 degrees) together hold every finite
    strike exactly once; the last 18 hold every finite strike once, except
    those whose doubled azimuth rounded to [360.0], which are in no bin. *)
Theorem half_circle_counts strikes dips fig :
  Forall well_formed strikes ->
  generate_rose_diagram strikes dips = Ok fig ->
  fold_right Nat.add O (firstn 18 (counts fig)) = finite_count strikes /\
  (fold_right Nat.add O (skipn 18 (counts fig)) + on_full_turn strikes
   = finite_count strikes)%nat.
Proof. apply figure_halves. Qed.

Lemma half_circle_counts_witness :
  exists fig,
    generate_rose_diagram [F64.of_Z 10; F64.NaN] [F64.of_Z 50; F64.of_Z 40] = Ok fig /\
    fold_right Nat.add O (firstn 18 (counts fig)) = 1%nat.
Proof.
  eexists. split; [vm_compute; reflexivity|].
  refine (proj1 (half_circle_counts [F64.of_Z 10; F64.NaN] [F64.of_Z 50; F64.of_Z 40] _ _ _)).
  - constructor; [vm_compute; congruence|constructor; [exact I|constructor]].
  - vm_compute; reflexivity.
Defined.

(** X16: the counts of a figure add up to twice the number of finite
    strikes, less the samples whose doubled azimuth rounded to [360.0];
    there is at most one such per finite strike, so the total is at least
    the number of finite strikes. *)
Theorem total_count_defect strikes dips fig :
  Forall well_formed strikes ->
  generate_rose_diagram strikes dips = Ok fig ->
  (total_count fig + on_full_turn strikes = 2 * finite_count strikes)%nat /\
  (finite_count strikes <= total_count fig <= 2 * finite_count strikes)%nat.
Proof.
  intros Hwf H. destruct (figure_halves strikes dips fig Hwf H) as [H1 H2].
  unfold total_count. rewrite (sum_split (counts fig) 18). lia.
Qed.

Lemma total_count_defect_witness :
  exists fig,
    generate_rose_diagram [F64.of_Z 10; F64.Inf false] [F64.of_Z 50; F64.of_Z 40] = Ok fig /\
    (total_count fig + on_full_turn [F64.of_Z 10; F64.Inf false] = 2 * 1)%nat.
Proof.
  eexists. split; [vm_compute; reflexivity|].
  refine (proj1 (total_count_defect [F64.of_Z 10; F64.Inf false] [F64.of_Z 50; F64.of_Z 40] _ _ _)).
  - constructor; [vm_compute; congruence|constructor; [exact I|constructor]].
  - vm_compute; reflexivity.
Defined.



(** X18: whatever text produced it, a rendered figure counts every finite
    strike once in its first 18 bins, and in total twice less the samples
    whose doubled azimuth rounded to [360.0]; a strike entered as [nan] or
    [inf] counts towards the 25 samples but falls in no bin. *)
Theorem rendered_counts strike_input dip_input fig :
  on_generate strike_input dip_input = Rendered fig ->
  exists strikes,
    parse_input strike_input = Ok strikes /\
    (25 <= length strikes)%nat /\
    fold_right Nat.add O (firstn 18 (counts fig)) = finite_count strikes /\
    (total_count fig + on_full_turn strikes = 2 * finite_count strikes)%nat.
Proof.
  unfold on_generate.
  destruct (parse_input strike_input) as [strikes|] eqn:E1; [|discriminate].
  destruct (parse_input dip_input) as [dips|] eqn:E2; [|discriminate].
  destruct (validate strikes dips) as [|msg errors] eqn:Ev; [|discriminate].
  destruct (generate_rose_diagram strikes dips) as [fig'|] eqn:Eg; [|discriminate].
  intros H. injection H as ->.
  apply Rose_facts.validate_nil in Ev. unfold min_samples in Ev.
  pose proof (parse_well_formed _ _ E1) as Hwf.
  destruct (figure_halves strikes dips fig Hwf Eg) as [H1 H2].
  exists strikes. split; [reflexivity|]. split; [lia|]. split; [exact H1|].
  unfold total_count. rewrite (sum_split (counts fig) 18). lia.
Qed.

Lemma rendered_counts_witness :
  exists fig strikes,
    on_generate (lines "10" 25) (lines "50" 25) = Rendered fig /\
    parse_input (lines "10" 25) = Ok strikes /\
    (25 <= length strikes)%nat /\
    fold_right Nat.add O (firstn 18 (counts fig)) = finite_count strikes /\
    (total_count fig + on_full_turn strikes = 2 * finite_count strikes)%nat.
Proof.
  assert (E : exists fig, on_generate (lines "10" 25) (lines "50" 25) = Rendered fig)
    by (eexists; vm_compute; reflexivity).
  destruct E as [fig E].
  destruct (rendered_counts _ _ _ E) as (strikes & H).
  exists fig, strikes. split; [exact E|exact H].
Defined.

Lemma whole_count_conservation_witness :
  exists fig,
    generate_rose_diagram (map F64.of_Z [10; -70]) [F64.of_Z 50; F64.of_Z 40] = Ok fig /\
    total_count fig = 4%nat.
Proof.
  apply (Whole_strikes.whole_count_conservation [10; -70] [F64.of_Z 50; F64.of_Z 40]).
  - constructor; [reflexivity|constructor; [reflexivity|constructor]].
  - reflexivity.
Defined.

Lemma whole_point_symmetry_witness :
  exists fig,
    generate_rose_diagram (map F64.of_Z [10; -70]) [F64.of_Z 50; F64.of_Z 40] = Ok fig /\
    nth 1 (counts fig) O = nth 19 (counts fig) O /\
    nth 1 (dip_means fig) F64.NaN = nth 19 (dip_means fig) F64.NaN.
Proof.
  destruct (Whole_strikes.whole_point_symmetry [10; -70] [F64.of_Z 50; F64.of_Z 40])
    as (fig & Hfig & Hsym).
  - constructor; [reflexivity|constructor; [reflexivity|constructor]].
  - reflexivity.
  - exists fig. split; [exact Hfig|].
    destruct (Hsym 1%nat ltac:(lia)) as (Hc & Hm & _). split; [exact Hc|exact Hm].
Defined.

Lemma whole_axial_fold_witness :
  generate_rose_diagram (map F64.of_Z [10; -70]) [F64.of_Z 50; F64.of_Z 40] =
  generate_rose_diagram (map F64.of_Z [190; 110]) [F64.of_Z 50; F64.of_Z 40].
Proof.
  apply (Whole_strikes.whole_axial_fold [10; -70] [190; 110]).
  - constructor; [reflexivity|constructor; [reflexivity|constructor]].
  - constructor; [reflexivity|constructor; [reflexivity|constructor]].
  - constructor; [reflexivity|constructor; [reflexivity|constructor]].
Defined.
